(** * gcodeopt: reordering plotter paths with a routing solver

    A shallow embedding of [gcodeopt.py] (segments of a G-code program, their
    end points, the forward/reversed pairs) and of [cvrp.py] (the distance
    matrix, the routing model that is handed to the solver, the walk over the
    solved route), followed by the properties of the design document that
    can be stated over them.

    Coordinates are Python floats, that is IEEE 754 binary64 numbers; they are
    modelled by the primitive floats of Rocq, which are the same format.  The
    one operation on them that the format does not fix is [**], which CPython
    hands to the [pow] of the C library of the platform: that function is a
    parameter, [libm], of everything that squares.  A Python exception is
    modelled by [None]. *)

From Stdlib Require Import ZArith Floats Lia.
From stdpp Require Import base option list gmap sets strings pretty.

Local Open Scope Z_scope.

(** ** Python numbers *)

Module py.

(** [int(f)] on a float: truncation toward zero; [OverflowError] on an
    infinity and [ValueError] on a NaN. *)
Definition int (f : float) : option Z :=
  match Prim2SF f with
  | S754_zero _ => Some 0
  | S754_finite s m e => Some (cond_Zopp s (Z.shiftl (Z.pos m) e))
  | S754_infinity _ | S754_nan => None
  end.

(** The floor of the real number a float stands for, as the design document
    writes it; undefined on infinities and NaN. *)
Definition floor (f : float) : option Z :=
  match Prim2SF f with
  | S754_zero _ => Some 0
  | S754_finite s m e => Some (Z.shiftl (cond_Zopp s (Z.pos m)) e)
  | S754_infinity _ | S754_nan => None
  end.

(** The error number a call of the C library leaves. *)
Inductive errno := no_error | ERANGE | EDOM.

(** [pow(x, y)] of the C library of the platform: the value it returns and
    the error number it leaves.  How it rounds differs between platforms. *)
Definition Libm : Type := float -> float -> float * errno.

(** [_Py_ADJUST_ERANGE1(x)]: an infinity counts as a range error, and a range
    error on a zero result (underflow) does not count. *)
Definition adjust_erange1 (x : float) (e : errno) : errno :=
  match e with
  | no_error => if is_infinity x then ERANGE else no_error
  | ERANGE => if (x =? 0)%float then no_error else ERANGE
  | EDOM => EDOM
  end.

(** [v ** 2] on a float, that is [float_pow] of CPython with the exponent
    [iw = 2.0]: a NaN is returned as it is, an infinity gives the positive
    infinity, a zero gives the positive zero; a negative [v] is replaced by
    its absolute value, and 1.0 gives 1.0; only then is the [pow] of the
    platform called, and an [OverflowError] (or a [ValueError]) raised when
    it leaves an error. *)
Definition pow2 (libm : Libm) (v : float) : option float :=
  match Prim2SF v with
  | S754_nan => Some v
  | S754_infinity _ => Some (abs v)
  | S754_zero _ => Some 0%float
  | S754_finite _ _ _ =>
      let iv := abs v in
      if (iv =? 1)%float then Some 1%float
      else
        let '(ix, e) := libm iv 2%float in
        match adjust_erange1 ix e with
        | no_error => Some ix
        | ERANGE | EDOM => None
        end
  end.

(** [math.sqrt(x)]: the [sqrt] of the C library, which IEEE 754 has
    correctly rounded; a [ValueError] when the result is a NaN and [x] is
    not. *)
Definition math_sqrt (x : float) : option float :=
  let r := sqrt x in
  match Prim2SF r, Prim2SF x with
  | S754_nan, S754_nan => Some r
  | S754_nan, _ => None
  | _, _ => Some r
  end.

(** [range(start, stop, step)] for a positive step. *)
Fixpoint range_from (fuel start stop step : nat) : list nat :=
  match fuel with
  | O => []
  | S fuel' =>
      if (start <? stop)%nat then start :: range_from fuel' (start + step) stop step
      else []
  end.

Definition range3 (start stop step : nat) : list nat :=
  range_from stop start stop step.

(** [range(start, stop)] *)
Definition range2 (start stop : nat) : list nat := seq start (stop - start).

(** [range(stop)] *)
Definition range (stop : nat) : list nat := seq 0 stop.

End py.

(** ** gcodeopt.py *)

Module gcodeopt.

(** A parsed line of G-code, as far as the program reads it: its text [raw],
    the command word, and the [x] and [y] words, [None] when the line has
    none. *)
Record Line :=
  { raw : string; command : string; x : option float; y : option float }.

Definition is_g0 (line : Line) : bool := bool_decide (command line = "G00"%string).
Definition not_g0 (line : Line) : bool := negb (bool_decide (command line = "G00"%string)).

Definition Pos : Type := float * float.

(** The loop shared by [Segment._startpos] and [Segment._endpos]: [x] and [y]
    are the two local variables, [ls] what is left of the lines.  Falling off
    the end of the loop returns Python's [None]. *)
Fixpoint scan (x0 y0 : option float) (ls : list Line) : option Pos :=
  match ls with
  | [] => None
  | line :: ls' =>
      let x1 := match x0 with None => x line | Some _ => x0 end in
      let y1 := match y0 with None => y line | Some _ => y0 end in
      match x1, y1 with
      | Some a, Some b => Some (a, b)
      | _, _ => scan x1 y1 ls'
      end
  end.

Definition _startpos (lines : list Line) : option Pos := scan None None lines.
Definition _endpos (lines : list Line) : option Pos := scan None None (reverse lines).

Record Segment := { lines : list Line; startpos : option Pos; endpos : option Pos }.

(** [Segment.__init__] *)
Definition Segment_init (ls : list Line) : Segment :=
  {| lines := ls; startpos := _startpos ls; endpos := _endpos ls |}.

(** The two classes a member of [segments] can have: a [Segment], or a
    [ReversedSegment] wrapping one. *)
Inductive Node :=
| Forward (seg : Segment)
| ReversedSegment (segment : Segment).

(** [.lines] of a node, as the sequence that one iteration over it yields:
    the list of a [Segment]; of a [ReversedSegment], a new [reversed]
    iterator over the list of its segment at every access, which [main]
    runs through once. *)
Definition node_lines (n : Node) : list Line :=
  match n with
  | Forward seg => lines seg
  | ReversedSegment segment => reverse (lines segment)
  end.

Definition node_startpos (n : Node) : option Pos :=
  match n with
  | Forward seg => startpos seg
  | ReversedSegment segment => endpos segment
  end.

Definition node_endpos (n : Node) : option Pos :=
  match n with
  | Forward seg => endpos seg
  | ReversedSegment segment => startpos segment
  end.

(** The segment a node is an orientation of. *)
Definition underlying (n : Node) : Segment :=
  match n with Forward s | ReversedSegment s => s end.

(** Truth value of a position: [None] is false, a tuple of two is true. *)
Definition truthy (p : option Pos) : bool :=
  match p with Some _ => true | None => false end.

(** One turn of the loop that fills [segments]. *)
Definition segments_step (segments : list Node) (segment : list Line) : list Node :=
  let seg := Segment_init segment in
  if truthy (startpos seg) && truthy (endpos seg)
  then (segments ++ [Forward seg]) ++ [ReversedSegment seg]
  else segments.

(** The module-level list [segments], from the parts that follow the
    preamble. *)
Definition segments (parts : list (list Line)) : list Node :=
  fold_left segments_step parts [].

(** [distance(a, b)]; a [TypeError] when a position is [None], and the
    errors of [**] and of [math.sqrt]. *)
Definition distance (libm : py.Libm) (a b : option Pos) : option float :=
  match a, b with
  | Some (a0, a1), Some (b0, b1) =>
      sq0 ← py.pow2 libm (a0 - b0)%float;
      sq1 ← py.pow2 libm (a1 - b1)%float;
      py.math_sqrt (sq0 + sq1)%float
  | _, _ => None
  end.

End gcodeopt.

(** ** The routing library, as far as cvrp.py calls it

    [ortools.constraint_solver.pywrapcp] is a library outside the program.
    What follows is its documented interface for the calls the program makes:
    the index manager, the registrations that build a routing model, and the
    conditions under which an assignment is a solution of that model. *)

Module ortools.

(** [RoutingIndexManager(num_nodes, num_vehicles, depot)]: every vehicle
    starts and ends at [depot].  The nodes keep their numbers as indices; the
    vehicles after the first get a start index of their own, and every vehicle
    gets an end index, all standing for the depot. *)
Record RoutingIndexManager :=
  { num_nodes : nat; num_vehicles : nat; depot : nat }.

Definition Size (m : RoutingIndexManager) : nat :=
  (num_nodes m + num_vehicles m - 1)%nat.

Definition IndexToNode (m : RoutingIndexManager) (index : nat) : nat :=
  if (index <? num_nodes m)%nat then index else depot m.

Definition Start (m : RoutingIndexManager) (vehicle : nat) : nat :=
  match vehicle with
  | O => depot m
  | S v => (num_nodes m + v)%nat
  end.

Definition End (m : RoutingIndexManager) (vehicle : nat) : nat :=
  (Size m + vehicle)%nat.

Definition IsEnd (m : RoutingIndexManager) (index : nat) : bool :=
  (Size m <=? index)%nat.

(** A transit callback, here a Python function that may raise. *)
Definition Callback : Type := nat -> nat -> option Z.

(** [kNoPenalty], the default of the [penalty] argument of [AddDisjunction]. *)
Definition kNoPenalty : Z := -1.

Record Disjunction :=
  { indices : list nat; penalty : Z; max_cardinality : nat }.

Record Dimension :=
  { evaluator_index : nat;
    slack_max : Z;
    capacity : Z;
    fix_start_cumul_to_zero : bool;
    name : string;
    global_span_cost_coefficient : Z }.

(** The state of a [RoutingModel] under construction. *)
Record RoutingModel :=
  { manager : RoutingIndexManager;
    transit_callbacks : list Callback;
    arc_cost_evaluator : option nat;
    dimensions : list Dimension;
    disjunctions : list Disjunction }.

Definition RoutingModel_init (m : RoutingIndexManager) : RoutingModel :=
  {| manager := m; transit_callbacks := []; arc_cost_evaluator := None;
     dimensions := []; disjunctions := [] |}.

(** [RegisterTransitCallback]: the new model and the index of the callback. *)
Definition RegisterTransitCallback (r : RoutingModel) (cb : Callback)
  : RoutingModel * nat :=
  ({| manager := manager r;
      transit_callbacks := transit_callbacks r ++ [cb];
      arc_cost_evaluator := arc_cost_evaluator r;
      dimensions := dimensions r;
      disjunctions := disjunctions r |},
   length (transit_callbacks r)).

Definition SetArcCostEvaluatorOfAllVehicles (r : RoutingModel) (evaluator : nat)
  : RoutingModel :=
  {| manager := manager r;
     transit_callbacks := transit_callbacks r;
     arc_cost_evaluator := Some evaluator;
     dimensions := dimensions r;
     disjunctions := disjunctions r |}.

Definition AddDimension (r : RoutingModel) (evaluator : nat) (slack cap : Z)
    (start_zero : bool) (nm : string) : RoutingModel :=
  {| manager := manager r;
     transit_callbacks := transit_callbacks r;
     arc_cost_evaluator := arc_cost_evaluator r;
     dimensions := dimensions r ++
       [{| evaluator_index := evaluator; slack_max := slack; capacity := cap;
           fix_start_cumul_to_zero := start_zero; name := nm;
           global_span_cost_coefficient := 0 |}];
     disjunctions := disjunctions r |}.

(** [GetDimensionOrDie(name).SetGlobalSpanCostCoefficient(c)] *)
Definition SetGlobalSpanCostCoefficient (r : RoutingModel) (nm : string) (c : Z)
  : RoutingModel :=
  {| manager := manager r;
     transit_callbacks := transit_callbacks r;
     arc_cost_evaluator := arc_cost_evaluator r;
     dimensions :=
       (fun d => if decide (name d = nm)
                 then {| evaluator_index := evaluator_index d;
                         slack_max := slack_max d; capacity := capacity d;
                         fix_start_cumul_to_zero := fix_start_cumul_to_zero d;
                         name := name d; global_span_cost_coefficient := c |}
                 else d) <$> dimensions r;
     disjunctions := disjunctions r |}.

(** [AddDisjunction(indices, penalty = kNoPenalty, max_cardinality = 1)] *)
Definition AddDisjunction (r : RoutingModel) (ixs : list nat) (pen : Z)
    (card : nat) : RoutingModel :=
  {| manager := manager r;
     transit_callbacks := transit_callbacks r;
     arc_cost_evaluator := arc_cost_evaluator r;
     dimensions := dimensions r;
     disjunctions := disjunctions r ++
       [{| indices := ixs; penalty := pen; max_cardinality := card |}] |}.

(** [GetArcCostForVehicle(from, to, vehicle)]: nothing from an index to
    itself, otherwise what the arc cost evaluator answers. *)
Definition GetArcCostForVehicle (r : RoutingModel) (from_index to_index vehicle : nat)
  : option Z :=
  if decide (from_index = to_index) then Some 0
  else match arc_cost_evaluator r with
       | None => Some 0
       | Some e => cb ← transit_callbacks r !! e; cb from_index to_index
       end.

(** An assignment gives each index its successor:
    [Value solution (NextVar index)]. *)
Definition Assignment : Type := nat -> nat.

(** An index is active (performed) when its successor is not itself. *)
Definition active (solution : Assignment) (index : nat) : bool :=
  bool_decide (solution index ≠ index).

Definition active_count (solution : Assignment) (ixs : list nat) : nat :=
  length (filter (fun i => active solution i = true) ixs).

(** What [AddDisjunction] promises: at most [max_cardinality] of the indices
    are active; with a negative penalty exactly that many are, and with a
    penalty that is not negative each index short of it costs [penalty]. *)
Definition disjunction_holds (solution : Assignment) (d : Disjunction) : Prop :=
  (active_count solution (indices d) <= max_cardinality d)%nat ∧
  (penalty d < 0 → active_count solution (indices d) = max_cardinality d).

(** The indices from [index] to the end of the route, the end left out. *)
Inductive path (m : RoutingIndexManager) (solution : Assignment)
  : nat -> list nat -> Prop :=
| path_end index :
    IsEnd m index = true -> path m solution index []
| path_step index l :
    IsEnd m index = false ->
    path m solution (solution index) l ->
    path m solution index (index :: l).

(** The transits along a route that goes on to [last]. *)
Fixpoint transit_sum (cb : Callback) (l : list nat) (last : nat) : option Z :=
  match l with
  | [] => Some 0
  | i :: l' =>
      let next := match l' with [] => last | j :: _ => j end in
      c ← cb i next; s ← transit_sum cb l' last; Some (c + s)
  end.

(** A dimension without slack, started at zero, holds on a route when the
    transits summed along the route stay within the capacity. *)
Definition dimension_holds (r : RoutingModel) (d : Dimension) (l : list nat) : Prop :=
  ∀ cb total,
    transit_callbacks r !! evaluator_index d = Some cb ->
    transit_sum cb l (End (manager r) 0) = Some total ->
    total <= capacity d.

(** What the solver promises of an assignment it returns for a model with one
    vehicle: the successors lead from the start to the end, every disjunction
    and every dimension holds. *)
Definition is_solution (r : RoutingModel) (solution : Assignment) : Prop :=
  ∃ l,
    path (manager r) solution (Start (manager r) 0) l ∧
    (∀ d, d ∈ disjunctions r → disjunction_holds solution d) ∧
    (∀ d, d ∈ dimensions r → dimension_holds r d l).

End ortools.

(** ** cvrp.py *)

Module cvrp.

Import gcodeopt ortools.

(** The dictionary [data]. *)
Record Data :=
  { distance_matrix : list (list Z);
    initial_routes : list (list nat);
    data_num_vehicles : nat;
    data_depot : nat }.

(** [for i, x in enumerate(xs): s = body(i, x, s)], where the body may raise;
    [i] is the number of the first element of [xs]. *)
Fixpoint for_enumerate {A St : Type} (body : nat -> A -> St -> option St)
    (i : nat) (xs : list A) (s : St) : option St :=
  match xs with
  | [] => Some s
  | x :: xs' => s' ← body i x s; for_enumerate body (S i) xs' s'
  end.

(** The entry appended to [row] for the pair [(i, j)]. *)
Definition entry (libm : py.Libm) (i : nat) (from_segment : Node) (j : nat)
    (to_segment : Node) : option Z :=
  if decide (i = j) then Some 0
  else d ← distance libm (node_endpos from_segment) (node_startpos to_segment);
       py.int d.

(** The inner loop: one row of the matrix. *)
Definition fill_row (libm : py.Libm) (segs : list Node) (i : nat)
    (from_segment : Node) : option (list Z) :=
  for_enumerate
    (fun j to_segment row =>
       c ← entry libm i from_segment j to_segment; Some (row ++ [c]))
    0%nat segs [].

(** The outer loop: the rows, one after the other. *)
Definition fill_matrix (libm : py.Libm) (segs : list Node)
  : option (list (list Z)) :=
  for_enumerate
    (fun i from_segment matrix =>
       row ← fill_row libm segs i from_segment; Some (matrix ++ [row]))
    0%nat segs [].

(** [create_data_model()], with [gcodeopt.segments] as an argument. *)
Definition create_data_model (libm : py.Libm) (segs : list Node) : option Data :=
  matrix ← fill_matrix libm segs;
  Some {| distance_matrix := matrix;
          initial_routes := [py.range2 1 (length matrix)];
          data_num_vehicles := 1;
          data_depot := 0 |}.

(** The closure [distance_callback] of [main]; an [IndexError] is [None]. *)
Definition distance_callback (data : Data) (manager : RoutingIndexManager)
  : Callback :=
  fun from_index to_index =>
    let from_node := IndexToNode manager from_index in
    let to_node := IndexToNode manager to_index in
    row ← distance_matrix data !! from_node; row !! to_node.

(** The manager [main] creates. *)
Definition main_manager (data : Data) : RoutingIndexManager :=
  {| num_nodes := length (distance_matrix data);
     num_vehicles := data_num_vehicles data;
     depot := data_depot data |}.

(** The routing model as [main] has built it when it calls the solver. *)
Definition main_routing (data : Data) : RoutingModel :=
  let manager := main_manager data in
  let routing := RoutingModel_init manager in
  let '(routing, transit_callback_index) :=
    RegisterTransitCallback routing (distance_callback data manager) in
  let routing := SetArcCostEvaluatorOfAllVehicles routing transit_callback_index in
  let dimension_name := "Distance"%string in
  let routing :=
    AddDimension routing transit_callback_index 0 60000 true dimension_name in
  let routing := SetGlobalSpanCostCoefficient routing dimension_name 100 in
  fold_left
    (fun routing i =>
       AddDisjunction routing
         [IndexToNode manager i; IndexToNode manager (i + 1)] kNoPenalty 1)
    (py.range3 0 (length (distance_matrix data)) 2)
    routing.

(** What [print_solution] computes: the list it returns and the two numbers it
    prints. *)
Record Printed :=
  { indexes : list nat; route_distance : Z; max_route_distance : Z }.

(** The [while] loop of [print_solution].  [None] when a callback raises, and
    when [fuel] turns of the loop do not reach the end of the route. *)
Fixpoint walk (routing : RoutingModel) (solution : Assignment) (vehicle_id : nat)
    (fuel : nat) (index : nat) (ixs : list nat) (dist : Z)
  : option (list nat * Z) :=
  match fuel with
  | O => None
  | S fuel' =>
      if IsEnd (manager routing) index then Some (ixs, dist)
      else
        let ixs := ixs ++ [IndexToNode (manager routing) index] in
        let previous_index := index in
        let index := solution index in
        c ← GetArcCostForVehicle routing previous_index index vehicle_id;
        walk routing solution vehicle_id fuel' index ixs (dist + c)
  end.

(** [print_solution(data, manager, routing, solution)] *)
Definition print_solution (data : Data) (routing : RoutingModel)
    (solution : Assignment) (fuel : nat) : option Printed :=
  '(ixs, last, maxd) ←
    foldl
      (fun acc vehicle_id =>
         '(ixs, _, maxd) ← acc;
         '(ixs, dist) ←
           walk routing solution vehicle_id fuel
             (Start (manager routing) vehicle_id) ixs 0;
         Some (ixs, dist, Z.max dist maxd))
      (Some ([], 0, 0))
      (py.range (data_num_vehicles data));
  Some {| indexes := ixs; route_distance := last; max_route_distance := maxd |}.

(** What [main] prints after the search: the route, the set of dropped nodes,
    and the two counts. *)
Record Report :=
  { solution_route : list nat;
    dropped_nodes : gset nat;
    routed : nat;
    total : nat;
    printed : Printed }.

Definition main_report (data : Data) (solution : Assignment) (fuel : nat)
  : option Report :=
  let routing := main_routing data in
  p ← print_solution data routing solution fuel;
  let solution := indexes p in
  Some {| solution_route := solution;
          dropped_nodes :=
            list_to_set (py.range (length (distance_matrix data))) ∖ list_to_set solution;
          routed := length solution;
          total := length (distance_matrix data);
          printed := p |}.

End cvrp.

(** ** The words of the design document *)

Module spec.

Import gcodeopt.

(** The 2D coordinate of a motion primitive, defined when both of its words
    are. *)
Definition line_pos (line : Line) : option Pos :=
  a ← x line; b ← y line; Some (a, b).

(** "The first defined 2D coordinate (x, y pair) encountered" in a scan: the
    coordinate of the first primitive that has one. *)
Fixpoint first_defined_pair (ls : list Line) : option Pos :=
  match ls with
  | [] => None
  | line :: ls' =>
      match line_pos line with
      | Some p => Some p
      | None => first_defined_pair ls'
      end
  end.

(** The first value one axis takes in a scan. *)
Fixpoint first_defined (axis : Line -> option float) (ls : list Line)
  : option float :=
  match ls with
  | [] => None
  | line :: ls' =>
      match axis line with
      | Some v => Some v
      | None => first_defined axis ls'
      end
  end.

(** A value already held wins over what the rest of the scan gives. *)
Definition held_or (held : option float) (axis : Line -> option float)
    (ls : list Line) : option float :=
  match held with Some v => Some v | None => first_defined axis ls end.

(** What a difference [f - f] can be, and what arithmetic keeps it: the
    positive zero, or NaN when [f] is not finite. *)
Definition zero_or_nan (X : spec_float) : Prop :=
  X = S754_zero false ∨ X = S754_nan.

(** A float that is a number: neither an infinity nor a NaN. *)
Definition finite (f : float) : bool :=
  match Prim2SF f with
  | S754_zero _ | S754_finite _ _ _ => true
  | S754_infinity _ | S754_nan => false
  end.

(** A degenerate segment: its start or its end position is undefined. *)
Definition degenerate (part : list Line) : bool :=
  negb (truthy (_startpos part) && truthy (_endpos part)).

Definition degenerate_count (parts : list (list Line)) : nat :=
  length (filter (fun part => degenerate part = true) parts).

(** The nodes one part contributes. *)
Definition nodes_of (part : list Line) : list Node :=
  if degenerate part then []
  else [Forward (Segment_init part); ReversedSegment (Segment_init part)].

(** Pair exclusivity of a route over [n] nodes: of the twins [2k] and
    [2k + 1], at most one is on the route. *)
Definition pair_exclusive (n : nat) (route : list nat) : Prop :=
  ∀ k : nat, (2 * k + 1 < n)%nat → ¬ ((2 * k)%nat ∈ route ∧ (2 * k + 1)%nat ∈ route).

(** [cost(i, j)], the entry of the distance matrix. *)
Definition cost (matrix : list (list Z)) (i j : nat) : Z :=
  default 0 (row ← matrix !! i; row !! j).

(** The sum of the arc costs of the consecutive pairs of a sequence of
    nodes. *)
Fixpoint arc_cost_sum (matrix : list (list Z)) (nodes : list nat) : Z :=
  match nodes with
  | a :: (b :: _) as rest => cost matrix a b + arc_cost_sum matrix rest
  | _ => 0
  end.

(** The formula of the design document for the entry [(i, j)], [i ≠ j],
    every operation being that of Python on floats: the difference, the
    square [**], the sum and the square root round, and the floor is taken
    of the float that results.  Undefined when a square raises and when the
    root is not finite. *)
Definition floor_distance (libm : py.Libm) (e s : Pos) : option Z :=
  sq0 ← py.pow2 libm (e.1 - s.1)%float;
  sq1 ← py.pow2 libm (e.2 - s.2)%float;
  py.floor (sqrt (sq0 + sq1))%float.

(** The same formula in exact arithmetic.  A finite float is a dyadic
    number [m * 2^e]; differences, squares and sums of dyadic numbers are
    dyadic numbers. *)
Definition Dyadic : Type := Z * Z.

Definition dyadic_of (f : float) : option Dyadic :=
  match Prim2SF f with
  | S754_zero _ => Some (0, 0)
  | S754_finite s m e => Some (cond_Zopp s (Z.pos m), e)
  | S754_infinity _ | S754_nan => None
  end.

(** The mantissa of [d] at the exponent [e], which is at most that of [d]. *)
Definition dyadic_at (d : Dyadic) (e : Z) : Z := d.1 * 2 ^ (d.2 - e).

Definition dyadic_sub (c d : Dyadic) : Dyadic :=
  let e := Z.min c.2 d.2 in (dyadic_at c e - dyadic_at d e, e).

Definition dyadic_add (c d : Dyadic) : Dyadic :=
  let e := Z.min c.2 d.2 in (dyadic_at c e + dyadic_at d e, e).

Definition dyadic_sq (d : Dyadic) : Dyadic := (d.1 * d.1, 2 * d.2).

(** The floor of the square root of a dyadic number that is not negative:
    with an even exponent [2h], the root of [m * 2^(2h)] is the root of [m]
    times [2^h]. *)
Definition dyadic_floor_sqrt (d : Dyadic) : Z :=
  let '(m, e) := if Z.even d.2 then d else (2 * d.1, d.2 - 1) in
  let h := e / 2 in
  if 0 <=? h then Z.sqrt (m * 2 ^ (2 * h)) else Z.sqrt m / 2 ^ (- h).

(** The floor of the Euclidean distance between two positions. *)
Definition exact_floor_distance (e s : Pos) : option Z :=
  e0 ← dyadic_of e.1; e1 ← dyadic_of e.2;
  s0 ← dyadic_of s.1; s1 ← dyadic_of s.2;
  Some (dyadic_floor_sqrt
          (dyadic_add (dyadic_sq (dyadic_sub e0 s0))
                      (dyadic_sq (dyadic_sub e1 s1)))).

End spec.

(** ** A small program: two strokes *)

Module example.

Import gcodeopt ortools cvrp.

Definition ln (text : string) (c : string) (a b : option float) : Line :=
  {| raw := text; command := c; x := a; y := b |}.

(** A C library whose [pow] squares with one correct rounding and reports an
    overflow; the example asks nothing else of it. *)
Definition pow : py.Libm :=
  fun x _ =>
    let r := (x * x)%float in
    (r, if is_infinity r then py.ERANGE else py.no_error).

(** A stroke from (0, 0) to (1, 0) and a stroke from (0, 1) to (1, 1). *)
Definition partA : list Line :=
  [ln "G00 X0 Y0" "G00" (Some 0%float) (Some 0%float);
   ln "G01 X1 Y0" "G01" (Some 1%float) (Some 0%float)].
Definition partB : list Line :=
  [ln "G00 X0 Y1" "G00" (Some 0%float) (Some 1%float);
   ln "G01 X1 Y1" "G01" (Some 1%float) (Some 1%float)].

(** A part without any coordinate. *)
Definition partE : list Line := [ln "G00" "G00" None None].

(** A part whose first primitive gives [x] only. *)
Definition partX : list Line :=
  [ln "G01 X1" "G01" (Some 1%float) None;
   ln "G01 X3 Y4" "G01" (Some 3%float) (Some 4%float)].

(** Two primitives, the first with [x] only, the second with [y] only. *)
Definition partXY : list Line :=
  [ln "G01 X1" "G01" (Some 1%float) None;
   ln "G01 Y2" "G01" None (Some 2%float)].

(** A stroke that starts a hair to the right of the origin, at x = 2^-60,
    and ends at (1, 0). *)
Definition partT : list Line :=
  [ln "G00 X0.0000000000000000008673617379884035 Y0" "G00"
      (Some 0x1p-60%float) (Some 0%float);
   ln "G01 X1 Y0" "G01" (Some 1%float) (Some 0%float)].

Definition segs : list Node := segments [partA; partB].

(** The nodes of [partA] and of the stroke that starts a hair off. *)
Definition segs_hair : list Node := segments [partA; partT].

(** A whole program: a preamble of one line, then two strokes, the second
    with an arc. *)
Definition program_arc : list Line :=
  [ln "G21" "G21" None None] ++ partA ++
  [ln "G00 X0 Y1" "G00" (Some 0%float) (Some 1%float);
   ln "G02 X1 Y1 I0.5 J0" "G02" (Some 1%float) (Some 1%float)].

(** The second stroke of [program_arc] once the module is loaded. *)
Definition partArc : list Line :=
  [ln "G00 X0 Y1" "G00" (Some 0%float) (Some 1%float);
   ln "G01 X1 Y1 I0.5 J0" "G02" (Some 1%float) (Some 1%float)].

Definition matrix : list (list Z) :=
  [[0; 0; 1; 1]; [0; 0; 1; 1]; [1; 1; 0; 0]; [1; 1; 0; 0]].

Definition data : Data :=
  {| distance_matrix := matrix;
     initial_routes := [[1; 2; 3]%nat];
     data_num_vehicles := 1;
     data_depot := 0 |}.

(** The route 0 -> 2 -> end; the nodes 1 and 3 are left out. *)
Definition sol : Assignment :=
  fun i => match i with 0 => 2 | 2 => 4 | _ => i end%nat.

(** The route 0 -> end; the nodes 1, 2 and 3 are left out. *)
Definition sol_skip : Assignment :=
  fun i => match i with 0 => 4 | _ => i end%nat.

(** What [main] reports for [sol]. *)
Definition report : Report :=
  {| solution_route := [0; 2]%nat;
     dropped_nodes := list_to_set (py.range 4) ∖ list_to_set [0; 2]%nat;
     routed := 2;
     total := 4;
     printed := {| indexes := [0; 2]%nat; route_distance := 2;
                   max_route_distance := 2 |} |}.

End example.

(** ** The rest of the program

    The splitting of the program into parts at the top of gcodeopt.py, and
    the file [main] writes at the end of cvrp.py. *)

Module more_itertools.

(** The loop of [split_when(iterable, pred)], with the default [maxsplit]:
    [cur_item] is the item read last, [buf] the part being filled, [it] what
    is left of the iterable. *)
Fixpoint split_when_loop {A : Type} (pred : A -> A -> bool) (cur_item : A)
    (buf : list A) (it : list A) : list (list A) :=
  match it with
  | [] => [buf]
  | next_item :: it' =>
      if pred cur_item next_item
      then buf :: split_when_loop pred next_item [next_item] it'
      else split_when_loop pred next_item (buf ++ [next_item]) it'
  end.

(** [split_when(iterable, pred)]: nothing is yielded for an empty iterable. *)
Definition split_when {A : Type} (pred : A -> A -> bool) (iterable : list A)
  : list (list A) :=
  match iterable with
  | [] => []
  | cur_item :: it => split_when_loop pred cur_item [cur_item] it
  end.

(** No two neighbours of a list are split by [pred]. *)
Fixpoint unsplit {A : Type} (pred : A -> A -> bool) (l : list A) : Prop :=
  match l with
  | a :: (b :: _) as rest => pred a b = false ∧ unsplit pred rest
  | _ => True
  end.

(** Every part in a list of parts ends where [pred] splits it from the
    next. *)
Fixpoint split_between {A : Type} (pred : A -> A -> bool) (ps : list (list A))
  : Prop :=
  match ps with
  | p :: (q :: _) as rest =>
      (∃ a b, last p = Some a ∧ head q = Some b ∧ pred a b = true) ∧
      split_between pred rest
  | _ => True
  end.

End more_itertools.

Module loader.

Import gcodeopt.

(** The lambda handed to [split_when]: a move that is not a G00 followed by
    a G00. *)
Definition boundary (a b : Line) : bool := not_g0 a && is_g0 b.

(** [s[n:]] on a string. *)
Fixpoint string_from (n : nat) (s : string) : string :=
  match n, s with
  | O, _ => s
  | S n', String _ s' => string_from n' s'
  | S _, EmptyString => EmptyString
  end.

(** One turn of the loop over [pattern.lines] that turns arcs into line
    segments: the text of a G02 or G03 line gets "G01" for its first three
    characters; the command word and the coordinates stay. *)
Definition rewrite_arc (line : Line) : Line :=
  if bool_decide (command line = "G02"%string) ||
     bool_decide (command line = "G03"%string)
  then {| raw := ("G01" ++ string_from 3 (raw line))%string;
          command := command line; x := x line; y := y line |}
  else line.

Definition rewrite_arcs (pattern_lines : list Line) : list Line :=
  rewrite_arc <$> pattern_lines.

(** What the module holds once it is loaded. *)
Record Loaded := { preamble : list Line; loaded_segments : list Node }.

(** The module-level code from [parts = split_when(...)] on, for the lines
    of [pattern]: [next(parts)] raises [StopIteration] when there is no
    part. *)
Definition load (pattern_lines : list Line) : option Loaded :=
  match more_itertools.split_when boundary pattern_lines with
  | [] => None
  | first :: parts =>
      Some {| preamble := first; loaded_segments := segments parts |}
  end.

(** The module-level code from the loop over the arcs on, for the lines of
    [pattern] as they were parsed. *)
Definition load_module (pattern_lines : list Line) : option Loaded :=
  load (rewrite_arcs pattern_lines).

End loader.

Module output.

Import gcodeopt.

(** The newline character. *)
Definition nl : string := String (Ascii.ascii_of_nat 10) EmptyString.

Section Str.

(** [str(line)]: the text the parser library renders a line of G-code as,
    from the line as the module holds it. *)
Variable str : Line -> string.

(** [str(line) + "\n"], what [writelines] is handed for a line. *)
Definition line_text (line : Line) : string := (str line ++ nl)%string.

(** ["(segment %d)\n" % segment]. *)
Definition segment_text (segment : nat) : string :=
  ("(segment " ++ pretty segment ++ ")" ++ nl)%string.

(** The loop [for segment in solution]: the strings it writes, the comment
    and then the lines of the node; an [IndexError] when [segment] is not an
    index of [segments]. *)
Fixpoint write_segments (segs : list Node) (solution : list nat)
  : option (list string) :=
  match solution with
  | [] => Some []
  | segment :: solution' =>
      node ← segs !! segment;
      rest ← write_segments segs solution';
      Some (segment_text segment :: (line_text <$> node_lines node) ++ rest)
  end.

(** The strings written to the file: the preamble, then the segments. *)
Definition optimized (preamble : list Line) (segs : list Node)
    (solution : list nat) : option (list string) :=
  body ← write_segments segs solution;
  Some ((line_text <$> preamble) ++ body).

End Str.

(** What a string of the file stands for: a line of G-code, or the comment
    that announces a segment. *)
Inductive Written :=
| WLine (line : Line)
| WSegment (segment : nat).

Definition render (str : Line -> string) (item : Written) : string :=
  match item with
  | WLine line => line_text str line
  | WSegment segment => segment_text segment
  end.

(** The items the loop over the route stands for. *)
Fixpoint segment_items (segs : list Node) (solution : list nat)
  : option (list Written) :=
  match solution with
  | [] => Some []
  | segment :: solution' =>
      node ← segs !! segment;
      rest ← segment_items segs solution';
      Some (WSegment segment :: (WLine <$> node_lines node) ++ rest)
  end.

(** The items of the whole file. *)
Definition items (preamble : list Line) (segs : list Node)
    (solution : list nat) : option (list Written) :=
  body ← segment_items segs solution;
  Some ((WLine <$> preamble) ++ body).

(** The lines of G-code among the items, in order. *)
Definition written_lines (w : list Written) : list Line :=
  flat_map (fun item => match item with WLine line => [line] | WSegment _ => [] end) w.

(** The comments among the items. *)
Definition is_comment (item : Written) : bool :=
  match item with WSegment _ => true | WLine _ => false end.

(** An arc, by its command word. *)
Definition is_arc (line : Line) : bool :=
  bool_decide (command line = "G02"%string) ||
  bool_decide (command line = "G03"%string).

(** A text that starts with the three characters of G01. *)
Definition starts_G01 (text : string) : Prop :=
  ∃ rest, text = ("G01" ++ rest)%string.

End output.

Module twins.

Import gcodeopt.

(** The node index of the other orientation of the same segment. *)
Definition twin (i : nat) : nat := if Nat.even i then S i else pred i.

(** The other orientation of a node. *)
Definition flip (n : Node) : Node :=
  match n with
  | Forward s => ReversedSegment s
  | ReversedSegment s => Forward s
  end.

(** Two floats of the same magnitude. *)
Definition same_abs (X Y : spec_float) : Prop := X = Y ∨ X = SFopp Y.

End twins.

Module example_file.

Import gcodeopt loader.

(** What loading [example.program_arc] gives. *)
Definition loaded : Loaded :=
  {| preamble := [example.ln "G21" "G21" None None];
     loaded_segments := segments [example.partA; example.partArc] |}.

End example_file.

(** * Properties *)

(** ** Segments and their end points *)

Section Endpoints.

Import gcodeopt spec.

Lemma scan_axes (ls : list Line) (x0 y0 : option float) :
  ¬ (is_Some x0 ∧ is_Some y0) →
  scan x0 y0 ls = a ← held_or x0 x ls; b ← held_or y0 y ls; Some (a, b).
Proof.
  revert x0 y0.
  induction ls as [|line ls IH]; intros x0 y0 Hheld.
  - destruct x0 as [a|], y0 as [b|]; simpl; try done.
    exfalso. apply Hheld. split; eauto.
  - destruct x0 as [a|], y0 as [b|].
    + exfalso. apply Hheld. split; eauto.
    + simpl. destruct (y line) as [b|]; [done|].
      rewrite IH; [done|]. intros [_ [? ?]]. discriminate.
    + simpl. destruct (x line) as [a|]; [done|].
      rewrite IH; [done|]. intros [[? ?] _]. discriminate.
    + simpl. destruct (x line) as [a|], (y line) as [b|]; simpl; try done.
      * rewrite IH; [done|]. intros [_ [? ?]]. discriminate.
      * rewrite IH; [done|]. intros [[? ?] _]. discriminate.
      * rewrite IH; [done|]. intros [[? ?] _]. discriminate.
Qed.

Lemma first_defined_is_Some (axis : Line -> option float) (ls : list Line) :
  is_Some (first_defined axis ls) ↔ ∃ line, line ∈ ls ∧ is_Some (axis line).
Proof.
  induction ls as [|line ls IH]; simpl.
  - split; [intros [? ?]; discriminate|]. intros (l & Hl & _). inversion Hl.
  - destruct (axis line) as [v|] eqn:Hv.
    + split; [|eauto]. intros _. exists line. split; [left|]. rewrite Hv. eauto.
    + rewrite IH. split.
      * intros (l & Hl & Hs). exists l. split; [by right|done].
      * intros (l & Hl & Hs). apply elem_of_cons in Hl as [->|Hl].
        -- rewrite Hv in Hs. destruct Hs. discriminate.
        -- eauto.
Qed.

(** A start position is defined exactly when an end position is: both ask
    for an [x] somewhere and a [y] somewhere. *)
Lemma startpos_endpos_defined (ls : list Line) :
  is_Some (_startpos ls) ↔ is_Some (_endpos ls).
Proof.
  unfold _startpos, _endpos.
  rewrite !scan_axes by (intros [[? ?] _]; discriminate). simpl.
  assert (Hax : ∀ axis, is_Some (first_defined axis ls) ↔
                        is_Some (first_defined axis (reverse ls))).
  { intros axis. rewrite !first_defined_is_Some.
    split; intros (l & Hl & Hs); exists l; split; try done.
    - by rewrite elem_of_reverse.
    - by rewrite elem_of_reverse in Hl. }
  pose proof (Hax x) as Hx. pose proof (Hax y) as Hy.
  destruct (first_defined x ls), (first_defined y ls),
    (first_defined x (reverse ls)), (first_defined y (reverse ls)); simpl;
    split; intros Hs; eauto;
    try (destruct Hs; discriminate);
    try (destruct (proj1 Hx ltac:(eauto)); discriminate);
    try (destruct (proj2 Hx ltac:(eauto)); discriminate);
    try (destruct (proj1 Hy ltac:(eauto)); discriminate);
    try (destruct (proj2 Hy ltac:(eauto)); discriminate).
Qed.

Lemma segments_from (parts : list (list Line)) (acc : list Node) :
  fold_left segments_step parts acc = acc ++ flat_map nodes_of parts.
Proof.
  revert acc. induction parts as [|part parts IH]; intros acc; simpl.
  - by rewrite app_nil_r.
  - rewrite IH. unfold segments_step, nodes_of, degenerate. simpl.
    destruct (truthy (_startpos part) && truthy (_endpos part)); simpl.
    + by rewrite <- !app_assoc.
    + done.
Qed.

Lemma segments_flat_map (parts : list (list Line)) :
  segments parts = flat_map nodes_of parts.
Proof. unfold segments. by rewrite segments_from. Qed.

Lemma nodes_of_degenerate (part : list Line) :
  degenerate part = true ↔
  startpos (Segment_init part) = None ∨ endpos (Segment_init part) = None.
Proof.
  unfold degenerate. simpl.
  destruct (_startpos part), (_endpos part); simpl; split; intros H;
    try done; try (destruct H; done); eauto.
Qed.

(** Every member of [segments] has both positions. *)
Lemma segments_defined (parts : list (list Line)) (n : Node) :
  n ∈ segments parts →
  is_Some (startpos (underlying n)) ∧ is_Some (endpos (underlying n)).
Proof.
  rewrite segments_flat_map. intros Hn.
  apply list_elem_of_In, in_flat_map in Hn as (part & _ & Hn).
  unfold nodes_of, degenerate in Hn.
  destruct (_startpos part) as [p|] eqn:Hs, (_endpos part) as [q|] eqn:He;
    simpl in Hn; try done.
  destruct Hn as [<-|[<-|[]]]; simpl; rewrite Hs, He; eauto.
Qed.

(** The members of [segments] come in twins: a segment at [2k], the same
    segment reversed at [2k + 1]. *)
Lemma segments_twins (parts : list (list Line)) (k : nat) :
  (2 * k + 1 < length (segments parts))%nat →
  ∃ s, segments parts !! (2 * k)%nat = Some (Forward s) ∧
       segments parts !! (2 * k + 1)%nat = Some (ReversedSegment s).
Proof.
  rewrite segments_flat_map. revert k.
  induction parts as [|part parts IH]; intros k Hk; cbn [flat_map] in *.
  - simpl in Hk. lia.
  - assert (Hn : nodes_of part = [] ∨
                 nodes_of part =
                   [Forward (Segment_init part); ReversedSegment (Segment_init part)])
      by (unfold nodes_of; destruct (degenerate part); eauto).
    destruct Hn as [Hn|Hn]; rewrite Hn in *.
    + apply IH. exact Hk.
    + destruct k as [|k].
      * eexists. split; reflexivity.
      * replace (2 * S k)%nat with (S (S (2 * k))) by lia.
        replace (S (S (2 * k)) + 1)%nat with (S (S (2 * k + 1))) by lia.
        cbn [app lookup list_lookup]. apply IH.
        cbn [app length] in Hk. lia.
Qed.

Lemma segments_length (parts : list (list Line)) :
  length (segments parts) = (2 * (length parts - degenerate_count parts))%nat.
Proof.
  rewrite segments_flat_map. unfold degenerate_count.
  induction parts as [|part parts IH]; [done|].
  simpl. rewrite length_app, IH. unfold nodes_of.
  pose proof (length_filter (fun part => degenerate part = true) parts) as Hle.
  rewrite filter_cons.
  destruct (decide (degenerate part = true)) as [Hd|Hd].
  - rewrite Hd. simpl. lia.
  - destruct (degenerate part); [done|]. simpl. lia.
Qed.

End Endpoints.

(** ** Floats *)

Section Floats.

Import gcodeopt spec.

Lemma SF64sub_diag (X : spec_float) : zero_or_nan (SF64sub X X).
Proof.
  destruct X as [s|s| |s m e]; unfold zero_or_nan, SF64sub, SFsub.
  - destruct s; eauto.
  - destruct s; eauto.
  - eauto.
  - left. rewrite Z.min_id. unfold shl_align. rewrite Z.sub_diag.
    reflexivity.
Qed.

Lemma SF64add_zero_or_nan (X Y : spec_float) :
  zero_or_nan X → zero_or_nan Y → zero_or_nan (SF64add X Y).
Proof. intros [->| ->] [->| ->]; (left; reflexivity) || (right; reflexivity). Qed.

Lemma SF64sqrt_zero_or_nan (X : spec_float) :
  zero_or_nan X → zero_or_nan (SF64sqrt X).
Proof. intros [->| ->]; [left|right]; reflexivity. Qed.

(** [**] keeps a zero a zero and a NaN a NaN, without a call of the C
    library. *)
Lemma pow2_zero_or_nan {libm : py.Libm} (v r : float) :
  zero_or_nan (Prim2SF v) → py.pow2 libm v = Some r → zero_or_nan (Prim2SF r).
Proof.
  unfold py.pow2. intros [Hv|Hv]; rewrite Hv; intros [= <-].
  - by left.
  - by right.
Qed.

(** [math.sqrt] returns the square root when it returns. *)
Lemma math_sqrt_Some (x d : float) : py.math_sqrt x = Some d → d = sqrt x.
Proof.
  unfold py.math_sqrt.
  destruct (Prim2SF (sqrt x)), (Prim2SF x); try done; by intros [= <-].
Qed.

(** [math.sqrt] returns whenever the square root is not a NaN. *)
Lemma math_sqrt_finite (x : float) :
  finite (sqrt x) = true → py.math_sqrt x = Some (sqrt x).
Proof.
  unfold finite, py.math_sqrt. by destruct (Prim2SF (sqrt x)).
Qed.

(** [int] returns exactly on the floats that are numbers. *)
Lemma int_finite (f : float) : is_Some (py.int f) ↔ finite f = true.
Proof.
  unfold py.int, finite.
  destruct (Prim2SF f); split; intros H; try done; eauto;
    destruct H; discriminate.
Qed.

(** A distance that is returned is the square root of the sum of two squares
    that were returned. *)
Lemma distance_Some {libm : py.Libm} (e s : Pos) (d : float) :
  distance libm (Some e) (Some s) = Some d →
  ∃ sq0 sq1, py.pow2 libm (e.1 - s.1) = Some sq0 ∧
             py.pow2 libm (e.2 - s.2) = Some sq1 ∧
             d = sqrt (sq0 + sq1).
Proof.
  destruct e as [e0 e1], s as [s0 s1]. unfold distance. simpl.
  destruct (py.pow2 libm (e0 - s0)) as [sq0|]; [|done].
  destruct (py.pow2 libm (e1 - s1)) as [sq1|]; [|done]. simpl.
  intros Hd%math_sqrt_Some. by exists sq0, sq1.
Qed.

(** The distance from a position to itself truncates to 0 whenever it
    truncates at all. *)
Lemma int_distance_same {libm : py.Libm} (p : Pos) (d : float) (z : Z) :
  distance libm (Some p) (Some p) = Some d → py.int d = Some z → z = 0.
Proof.
  intros (sq0 & sq1 & H0 & H1 & ->)%distance_Some.
  apply pow2_zero_or_nan in H0; [|rewrite sub_spec; apply SF64sub_diag].
  apply pow2_zero_or_nan in H1; [|rewrite sub_spec; apply SF64sub_diag].
  unfold py.int. rewrite sqrt_spec, add_spec.
  destruct (SF64sqrt_zero_or_nan _ (SF64add_zero_or_nan _ _ H0 H1)) as [-> | ->];
    [|done].
  by intros [= <-].
Qed.

(** A square root that is a finite number other than zero is positive. *)
Lemma SF64sqrt_sign (X : spec_float) (s : bool) (m : positive) (e : Z) :
  SF64sqrt X = S754_finite s m e → s = false.
Proof.
  destruct X as [s0|s0| |s0 m0 e0]; unfold SF64sqrt, SFsqrt; try done.
  - by destruct s0.
  - destruct s0; [done|].
    destruct (SFsqrt_core_binary prec emax (Z.pos m0) e0) as [[mz ez] lz].
    unfold binary_round_aux.
    destruct (shr_fexp prec emax mz ez lz) as [mrs' e'].
    destruct (shr_fexp prec emax _ e' loc_Exact) as [mrs'' e''].
    destruct (shr_m mrs'') as [|q|q]; try done.
    destruct (e'' <=? emax - prec); [|done]. by intros [= <- _ _].
Qed.

(** On a square root, Python's [int] is the floor. *)
Lemma int_sqrt_floor (f : float) : py.int (sqrt f) = py.floor (sqrt f).
Proof.
  unfold py.int, py.floor.
  destruct (Prim2SF (sqrt f)) as [s|s| |s m e] eqn:Hf; try done.
  rewrite sqrt_spec in Hf. apply SF64sqrt_sign in Hf as ->. done.
Qed.

End Floats.

(** ** The distance matrix *)

Section Matrix.

Import gcodeopt spec ortools cvrp.

(** A loop that appends one computed element per turn. *)
Lemma for_enumerate_append {A B : Type} (f : nat -> A -> option B)
    (xs : list A) (i : nat) (acc r : list B) :
  for_enumerate (fun j x row => c ← f j x; Some (row ++ [c])) i xs acc = Some r →
  ∃ cs, r = acc ++ cs ∧ length cs = length xs ∧
        ∀ t x, xs !! t = Some x → ∃ c, f (i + t)%nat x = Some c ∧ cs !! t = Some c.
Proof.
  revert i acc. induction xs as [|x xs IH]; intros i acc Hr; simpl in Hr.
  - injection Hr as <-. exists []. rewrite app_nil_r. split_and!; try done.
  - destruct (f i x) as [c|] eqn:Hc; simpl in Hr; [|done].
    apply IH in Hr as (cs & -> & Hlen & Hcs).
    exists (c :: cs). rewrite <- app_assoc. split_and!; try done.
    + simpl. by rewrite Hlen.
    + intros [|t] x' Hx'; simpl in Hx'.
      * injection Hx' as <-. exists c. by rewrite Nat.add_0_r.
      * destruct (Hcs t x' Hx') as (c' & Hf & Hl).
        exists c'. split; [|done]. by rewrite <- Nat.add_succ_comm.
Qed.

Lemma for_enumerate_append_total {A B : Type} (f : nat -> A -> option B)
    (xs : list A) (i : nat) (acc : list B) :
  (∀ t x, xs !! t = Some x → is_Some (f (i + t)%nat x)) →
  is_Some (for_enumerate (fun j x row => c ← f j x; Some (row ++ [c])) i xs acc).
Proof.
  revert i acc. induction xs as [|x xs IH]; intros i acc Hf; simpl; [eauto|].
  destruct (Hf 0%nat x eq_refl) as [c Hc]. rewrite Nat.add_0_r in Hc.
  rewrite Hc. simpl. apply IH. intros t x' Hx'.
  rewrite Nat.add_succ_comm. by apply (Hf (S t)).
Qed.

Lemma fill_row_entries {libm : py.Libm}
    (segs : list Node) (i : nat) (from_segment : Node)
    (row : list Z) :
  fill_row libm segs i from_segment = Some row →
  length row = length segs ∧
  ∀ j to_segment, segs !! j = Some to_segment →
    ∃ c, entry libm i from_segment j to_segment = Some c ∧ row !! j = Some c.
Proof.
  unfold fill_row. intros Hrow.
  apply (for_enumerate_append (entry libm i from_segment)) in Hrow as (cs & -> & Hlen & Hcs).
  done.
Qed.

Lemma fill_matrix_rows {libm : py.Libm}
    (segs : list Node) (matrix : list (list Z)) :
  fill_matrix libm segs = Some matrix →
  length matrix = length segs ∧
  ∀ i from_segment, segs !! i = Some from_segment →
    ∃ row, fill_row libm segs i from_segment = Some row ∧ matrix !! i = Some row.
Proof.
  unfold fill_matrix. intros Hm.
  apply (for_enumerate_append (fill_row libm segs)) in Hm as (cs & -> & Hlen & Hcs).
  done.
Qed.

(** The matrix is square, and its entry [(i, j)] is what [entry] computes. *)
Lemma create_data_model_entries {libm : py.Libm}
    (segs : list Node) (data : Data) :
  create_data_model libm segs = Some data →
  length (distance_matrix data) = length segs ∧
  (∀ i row, distance_matrix data !! i = Some row → length row = length segs) ∧
  ∀ i j from_segment to_segment,
    segs !! i = Some from_segment → segs !! j = Some to_segment →
    ∃ row c, distance_matrix data !! i = Some row ∧ row !! j = Some c ∧
             entry libm i from_segment j to_segment = Some c.
Proof.
  unfold create_data_model. intros Hd.
  destruct (fill_matrix libm segs) as [matrix|] eqn:Hm; simpl in Hd; [|done].
  injection Hd as <-. simpl.
  apply fill_matrix_rows in Hm as [Hlen Hrows]. split_and!; [done|..].
  - intros i row Hi.
    destruct (lookup_lt_is_Some_2 segs i) as [from_segment Hfrom].
    { rewrite <- Hlen. by eapply lookup_lt_Some. }
    destruct (Hrows i from_segment Hfrom) as (row' & Hrow' & Hi').
    rewrite Hi in Hi'. injection Hi' as <-.
    by apply fill_row_entries in Hrow' as [? _].
  - intros i j from_segment to_segment Hfrom Hto.
    destruct (Hrows i from_segment Hfrom) as (row & Hrow & Hi).
    apply fill_row_entries in Hrow as [_ Hrow].
    destruct (Hrow j to_segment Hto) as (c & Hc & Hj).
    by exists row, c.
Qed.

Lemma create_data_model_fields {libm : py.Libm}
    (segs : list Node) (data : Data) :
  create_data_model libm segs = Some data →
  data_num_vehicles data = 1%nat ∧ data_depot data = 0%nat ∧
  initial_routes data = [py.range2 1 (length (distance_matrix data))].
Proof.
  unfold create_data_model. intros Hd.
  destruct (fill_matrix libm segs) as [matrix|]; simpl in Hd; [|done].
  by injection Hd as <-.
Qed.

(** The matrix is built whenever every entry off the diagonal can be
    computed. *)
Lemma create_data_model_total {libm : py.Libm} (segs : list Node) :
  (∀ i j from_segment to_segment,
     segs !! i = Some from_segment → segs !! j = Some to_segment →
     is_Some (entry libm i from_segment j to_segment)) →
  is_Some (create_data_model libm segs).
Proof.
  intros Hall. unfold create_data_model.
  destruct (for_enumerate_append_total (fill_row libm segs) segs 0 []) as [m Hm].
  - intros i from_segment Hfrom. unfold fill_row.
    apply for_enumerate_append_total. intros j to_segment Hto.
    by apply (Hall i j).
  - unfold fill_matrix. rewrite Hm. simpl. eauto.
Qed.

End Matrix.

Section MatrixClaims.

Import gcodeopt spec ortools cvrp.

Lemma entry_off_diagonal {libm : py.Libm}
    (i j : nat) (from_segment to_segment : Node) (c : Z) :
  i ≠ j → entry libm i from_segment j to_segment = Some c →
  ∃ e s d, node_endpos from_segment = Some e ∧ node_startpos to_segment = Some s ∧
           distance libm (Some e) (Some s) = Some d ∧ py.int d = Some c.
Proof.
  intros Hij. unfold entry. destruct (decide (i = j)); [done|].
  destruct (node_endpos from_segment) as [e|], (node_startpos to_segment) as [s|];
    try (destruct e; done); try done.
  destruct (distance libm (Some e) (Some s)) as [d|] eqn:Hd; [|done]. simpl.
  intros Hc. by exists e, s, d.
Qed.

(** C2, as stated, fails: the entry is not the floor of the Euclidean
    distance.  From the end (1, 0) of a stroke to the start (2^-60, 0) of
    another the distance is 1 - 2^-60, of floor 0; the difference of the two
    floats rounds to 1.0, of which [**] is 1.0 without a call of the C
    library, and the entry of the matrix is 1 on every platform. *)
Lemma distance_entry_not_exact_floor :
  is_Some (create_data_model example.pow example.segs_hair) ∧
  ∃ from_segment to_segment e s,
    example.segs_hair !! 0%nat = Some from_segment ∧
    example.segs_hair !! 2%nat = Some to_segment ∧
    node_endpos from_segment = Some e ∧
    node_startpos to_segment = Some s ∧
    exact_floor_distance e s = Some 0 ∧
    ∀ libm data, create_data_model libm example.segs_hair = Some data →
      ∃ row, distance_matrix data !! 0%nat = Some row ∧ row !! 2%nat = Some 1.
Proof.
  split; [vm_compute; eauto|].
  eexists _, _, _, _.
  split; [reflexivity|]. split; [reflexivity|].
  split; [reflexivity|]. split; [reflexivity|].
  split; [vm_compute; reflexivity|].
  intros libm data Hdata.
  apply create_data_model_entries in Hdata as (_ & _ & Hentries).
  destruct (Hentries 0%nat 2%nat _ _ eq_refl eq_refl) as (row & c & Hi & Hj & Hc).
  exists row. split; [done|].
  vm_compute in Hc. by rewrite Hj, <- Hc.
Qed.

(** C2, amended.  The matrix built by [create_data_model] from a sequence of
    oriented nodes is square; its entry (i, i) is 0, and its entry (i, j),
    i ≠ j, is the floor of the float that Python computes for the square
    root of the sum of the squares of the differences between the end
    position of node i and the start position of node j: each difference,
    each square (through the [pow] of the platform), the sum and the root
    are rounded to binary64 before the floor is taken. *)
Theorem distance_matrix_formula {libm : py.Libm}
    (segs : list Node) (data : Data) (i j : nat)
    (from_segment to_segment : Node) :
  create_data_model libm segs = Some data →
  segs !! i = Some from_segment →
  segs !! j = Some to_segment →
  length (distance_matrix data) = length segs ∧
  ∃ row c,
    distance_matrix data !! i = Some row ∧ length row = length segs ∧
    row !! j = Some c ∧
    if decide (i = j) then c = 0
    else ∃ e s, node_endpos from_segment = Some e ∧
                node_startpos to_segment = Some s ∧
                floor_distance libm e s = Some c.
Proof.
  intros Hdata Hfrom Hto.
  apply create_data_model_entries in Hdata as (Hlen & Hrows & Hentries).
  split; [done|].
  destruct (Hentries i j from_segment to_segment Hfrom Hto) as (row & c & Hi & Hj & Hc).
  exists row, c. split_and!; try done; [by eapply Hrows|].
  destruct (decide (i = j)) as [->|Hij].
  - unfold entry in Hc. rewrite decide_True in Hc by done. by injection Hc.
  - apply entry_off_diagonal in Hc as (e & s & d & He & Hs & Hd & Hint); [|done].
    exists e, s. split_and!; try done.
    apply distance_Some in Hd as (sq0 & sq1 & H0 & H1 & ->).
    unfold floor_distance. rewrite H0, H1. simpl.
    by rewrite <- int_sqrt_floor.
Qed.

Lemma distance_matrix_formula_witness :
  create_data_model example.pow example.segs = Some example.data ∧
  example.segs !! 0%nat = Some (Forward (Segment_init example.partA)) ∧
  example.segs !! 2%nat = Some (Forward (Segment_init example.partB)) ∧
  length (distance_matrix example.data) = length example.segs ∧
  ∃ row c,
    distance_matrix example.data !! 0%nat = Some row ∧
    length row = length example.segs ∧
    row !! 2%nat = Some c ∧
    if decide (0%nat = 2%nat) then c = 0
    else ∃ e s, node_endpos (Forward (Segment_init example.partA)) = Some e ∧
                node_startpos (Forward (Segment_init example.partB)) = Some s ∧
                floor_distance example.pow e s = Some c.
Proof.
  assert (H1 : create_data_model example.pow example.segs = Some example.data)
    by (vm_compute; reflexivity).
  assert (H2 : example.segs !! 0%nat = Some (Forward (Segment_init example.partA)))
    by reflexivity.
  assert (H3 : example.segs !! 2%nat = Some (Forward (Segment_init example.partB)))
    by reflexivity.
  split; [exact H1|]. split; [exact H2|]. split; [exact H3|].
  exact (distance_matrix_formula example.segs example.data 0 2 _ _ H1 H2 H3).
Defined.

(** C10. For a segment at the node indices 2k (forward) and 2k + 1
    (reversed), the reversed node starts where the forward node ends and
    ends where it starts, and the two entries of the distance matrix between
    the twins are 0: zero cost is not confined to the diagonal. *)
Theorem twins_cost_zero {libm : py.Libm}
    (parts : list (list Line)) (data : Data) (k : nat) :
  create_data_model libm (segments parts) = Some data →
  (2 * k + 1 < length (segments parts))%nat →
  ∃ fwd rev row_fwd row_rev,
    segments parts !! (2 * k)%nat = Some fwd ∧
    segments parts !! (2 * k + 1)%nat = Some rev ∧
    node_startpos rev = node_endpos fwd ∧
    node_endpos rev = node_startpos fwd ∧
    distance_matrix data !! (2 * k)%nat = Some row_fwd ∧
    distance_matrix data !! (2 * k + 1)%nat = Some row_rev ∧
    row_fwd !! (2 * k + 1)%nat = Some 0 ∧
    row_rev !! (2 * k)%nat = Some 0.
Proof.
  intros Hdata Hk.
  destruct (segments_twins parts k Hk) as (s & Hfwd & Hrev).
  apply create_data_model_entries in Hdata as (_ & _ & Hentries).
  destruct (Hentries _ _ _ _ Hfwd Hrev) as (row_fwd & c1 & Hr1 & Hc1 & He1).
  destruct (Hentries _ _ _ _ Hrev Hfwd) as (row_rev & c2 & Hr2 & Hc2 & He2).
  exists (Forward s), (ReversedSegment s), row_fwd, row_rev.
  split_and!; try done.
  - apply entry_off_diagonal in He1 as (e & p & d & He & Hp & Hd & Hint); [|lia].
    simpl in He, Hp. rewrite He in Hp. injection Hp as <-.
    by rewrite (int_distance_same e d c1 Hd Hint) in Hc1.
  - apply entry_off_diagonal in He2 as (e & p & d & He & Hp & Hd & Hint); [|lia].
    simpl in He, Hp. rewrite He in Hp. injection Hp as <-.
    by rewrite (int_distance_same e d c2 Hd Hint) in Hc2.
Qed.

Lemma twins_cost_zero_witness :
  create_data_model example.pow (segments [example.partA; example.partB]) = Some example.data ∧
  (2 * 1 + 1 < length (segments [example.partA; example.partB]))%nat ∧
  ∃ fwd rev row_fwd row_rev,
    segments [example.partA; example.partB] !! (2 * 1)%nat = Some fwd ∧
    segments [example.partA; example.partB] !! (2 * 1 + 1)%nat = Some rev ∧
    node_startpos rev = node_endpos fwd ∧
    node_endpos rev = node_startpos fwd ∧
    distance_matrix example.data !! (2 * 1)%nat = Some row_fwd ∧
    distance_matrix example.data !! (2 * 1 + 1)%nat = Some row_rev ∧
    row_fwd !! (2 * 1 + 1)%nat = Some 0 ∧
    row_rev !! (2 * 1)%nat = Some 0.
Proof.
  assert (H1 : create_data_model example.pow (segments [example.partA; example.partB])
               = Some example.data) by (vm_compute; reflexivity).
  assert (H2 : (2 * 1 + 1 < length (segments [example.partA; example.partB]))%nat)
    by (vm_compute; lia).
  split; [exact H1|]. split; [exact H2|].
  exact (twins_cost_zero [example.partA; example.partB] example.data 1 H1 H2).
Defined.

End MatrixClaims.

(** ** The routing model built by [main] *)

Section Model.

Import gcodeopt spec ortools cvrp.

Lemma range_from_spec (step fuel start stop x : nat) :
  (0 < step)%nat → (stop <= start + fuel)%nat →
  x ∈ py.range_from fuel start stop step ↔
  ∃ t : nat, x = (start + t * step)%nat ∧ (x < stop)%nat.
Proof.
  intros Hstep. revert start.
  induction fuel as [|fuel IH]; intros start Hfuel; simpl.
  - split; [by intros ?%elem_of_nil|]. intros (t & -> & Hlt). nia.
  - destruct (start <? stop)%nat eqn:Hlt.
    + apply Nat.ltb_lt in Hlt. rewrite elem_of_cons, IH by lia. split.
      * intros [->|(t & -> & Hx)].
        -- exists 0%nat. lia.
        -- exists (S t). lia.
      * intros ([|t] & -> & Hx).
        -- left. lia.
        -- right. exists t. lia.
    + apply Nat.ltb_ge in Hlt. split; [by intros ?%elem_of_nil|].
      intros (t & -> & Hx). nia.
Qed.

(** [range(0, n, 2)] is the even numbers below [n]. *)
Lemma range3_even (n x : nat) :
  x ∈ py.range3 0 n 2 ↔ ∃ k : nat, x = (2 * k)%nat ∧ (2 * k < n)%nat.
Proof.
  unfold py.range3. rewrite range_from_spec by lia.
  split; intros (t & -> & Hx); exists t; lia.
Qed.

Lemma fold_AddDisjunction (f : nat -> list nat) (pen : Z) (card : nat)
    (l : list nat) (r : RoutingModel) :
  let r' := fold_left (fun r i => AddDisjunction r (f i) pen card) l r in
  manager r' = manager r ∧
  transit_callbacks r' = transit_callbacks r ∧
  arc_cost_evaluator r' = arc_cost_evaluator r ∧
  dimensions r' = dimensions r ∧
  disjunctions r' =
    disjunctions r ++
    ((fun i => {| indices := f i; penalty := pen; max_cardinality := card |}) <$> l).
Proof.
  revert r. induction l as [|i l IH]; intros r; simpl.
  - by rewrite app_nil_r.
  - destruct (IH (AddDisjunction r (f i) pen card)) as (-> & -> & -> & -> & ->).
    simpl. by rewrite <- app_assoc.
Qed.

Lemma main_routing_fields (data : Data) :
  manager (main_routing data) = main_manager data ∧
  transit_callbacks (main_routing data) =
    [distance_callback data (main_manager data)] ∧
  arc_cost_evaluator (main_routing data) = Some 0%nat ∧
  dimensions (main_routing data) =
    [{| evaluator_index := 0; slack_max := 0; capacity := 60000;
        fix_start_cumul_to_zero := true; name := "Distance";
        global_span_cost_coefficient := 100 |}] ∧
  disjunctions (main_routing data) =
    (fun i => {| indices := [IndexToNode (main_manager data) i;
                             IndexToNode (main_manager data) (i + 1)];
                 penalty := kNoPenalty; max_cardinality := 1 |})
    <$> py.range3 0 (length (distance_matrix data)) 2.
Proof.
  unfold main_routing. cbv zeta. cbn [RegisterTransitCallback].
  match goal with
  | |- context [fold_left ?g ?l ?r] =>
      pose proof (fold_AddDisjunction
        (fun i => [IndexToNode (main_manager data) i;
                   IndexToNode (main_manager data) (i + 1)]) kNoPenalty 1 l r) as H
  end.
  cbv beta zeta in H. destruct H as (-> & -> & -> & -> & ->). done.
Qed.

(** The disjunction of every pair of twins is registered, with the default
    penalty and the default cardinality. *)
Lemma main_routing_pairs (data : Data) (k : nat) :
  (2 * k + 1 < length (distance_matrix data))%nat →
  {| indices := [(2 * k)%nat; (2 * k + 1)%nat];
     penalty := kNoPenalty; max_cardinality := 1 |}
  ∈ disjunctions (main_routing data).
Proof.
  intros Hk. destruct (main_routing_fields data) as (_ & _ & _ & _ & ->).
  apply list_elem_of_fmap. exists (2 * k)%nat. split.
  - unfold IndexToNode, main_manager. simpl num_nodes.
    destruct (Nat.ltb_spec (2 * k) (length (distance_matrix data))); [|lia].
    destruct (Nat.ltb_spec (2 * k + 1) (length (distance_matrix data))); [|lia].
    done.
  - apply range3_even. exists k. lia.
Qed.

End Model.

(** ** Routes *)

Section Route.

Import ortools.

Variable m : RoutingIndexManager.
Variable solution : Assignment.

Lemma path_functional (index : nat) (l1 l2 : list nat) :
  path m solution index l1 → path m solution index l2 → l1 = l2.
Proof.
  intros H1. revert l2.
  induction H1 as [index Hend|index l Hend H1 IH]; intros l2 H2;
    inversion H2; subst; try congruence.
  f_equal. by apply IH.
Qed.

Lemma path_not_end (index : nat) (l : list nat) (i : nat) :
  path m solution index l → i ∈ l → IsEnd m i = false.
Proof.
  induction 1 as [index Hend|index l Hend H1 IH]; intros Hi.
  - by apply elem_of_nil in Hi.
  - apply elem_of_cons in Hi as [->|Hi]; eauto.
Qed.

(** From any index of a route, the rest of the route is the route from that
    index. *)
Lemma path_suffix (index : nat) (l : list nat) (i : nat) :
  path m solution index l → i ∈ l →
  ∃ l1 l2, l = l1 ++ i :: l2 ∧ path m solution i (i :: l2).
Proof.
  induction 1 as [index Hend|index l Hend H1 IH]; intros Hi.
  - by apply elem_of_nil in Hi.
  - destruct (decide (i = index)) as [->|Hne].
    + exists [], l. split; [done|]. by constructor.
    + apply elem_of_cons in Hi as [->|Hi]; [done|].
      destruct (IH Hi) as (l1 & l2 & -> & Hp).
      by exists (index :: l1), l2.
Qed.

Lemma path_NoDup (index : nat) (l : list nat) :
  path m solution index l → NoDup l.
Proof.
  induction 1 as [index Hend|index l Hend H1 IH]; [constructor|].
  constructor; [|done]. intros Hin.
  destruct (path_suffix _ _ _ H1 Hin) as (l1 & l2 & -> & Hp).
  assert (Heq : index :: l2 = index :: l1 ++ index :: l2).
  { apply (path_functional index); [done|]. by constructor. }
  apply (f_equal length) in Heq. simpl in Heq. rewrite length_app in Heq.
  simpl in Heq. lia.
Qed.

(** An index on a route is active: its successor is another index. *)
Lemma path_active (index : nat) (l : list nat) (i : nat) :
  path m solution index l → i ∈ l → active solution i = true.
Proof.
  intros Hp Hi. unfold active. apply bool_decide_eq_true. intros Hself.
  destruct (path_suffix _ _ _ Hp Hi) as (l1 & l2 & -> & Hp2).
  inversion Hp2 as [|? ? Hend Hp3]; subst. rewrite Hself in Hp3.
  assert (Heq : l2 = i :: l2) by (by apply (path_functional i)).
  apply (f_equal length) in Heq. simpl in Heq. lia.
Qed.

(** On a route, the successor of an index is the next index of the route. *)
Lemma path_next (index : nat) (l : list nat) :
  path m solution index l →
  match l with
  | [] => IsEnd m index = true
  | i :: l' =>
      i = index ∧ IsEnd m i = false ∧
      match l' with
      | [] => IsEnd m (solution i) = true
      | j :: _ => solution i = j ∧ IsEnd m j = false
      end
  end.
Proof.
  intros Hp. inversion Hp as [? Hend|? l' Hend Hp']; subst; [done|].
  split_and!; try done.
  inversion Hp'; subst; done.
Qed.

End Route.

(** ** The walk over a solved route *)

Section Walk.

Import gcodeopt spec ortools cvrp.

(** The walk only follows a route: what it returns is the indices it was
    given, then the nodes of the route from [index]. *)
Lemma walk_inv (routing : RoutingModel) (solution : Assignment) (v fuel : nat)
    (index : nat) (ixs : list nat) (dist : Z) (ixs' : list nat) (dist' : Z) :
  walk routing solution v fuel index ixs dist = Some (ixs', dist') →
  ∃ l, path (manager routing) solution index l ∧
       ixs' = ixs ++ (IndexToNode (manager routing) <$> l).
Proof.
  revert index ixs dist.
  induction fuel as [|fuel IH]; intros index ixs dist Hw; simpl in Hw; [done|].
  destruct (IsEnd (manager routing) index) eqn:Hend.
  - injection Hw as <- <-. exists []. split; [by constructor|].
    by rewrite app_nil_r.
  - destruct (GetArcCostForVehicle routing index (solution index) v) as [c|];
      simpl in Hw; [|done].
    apply IH in Hw as (l & Hp & ->).
    exists (index :: l). split; [by constructor|].
    by rewrite <- app_assoc.
Qed.

Context {libm : py.Libm} (segs : list Node) (data : Data).
Hypothesis Hdata : create_data_model libm segs = Some data.

Lemma main_manager_Size : Size (main_manager data) = length (distance_matrix data).
Proof.
  destruct (create_data_model_fields _ _ Hdata) as (Hv & _ & _).
  unfold Size, main_manager. simpl. rewrite Hv. lia.
Qed.

Lemma main_manager_IsEnd (index : nat) :
  IsEnd (main_manager data) index = false ↔
  (index < length (distance_matrix data))%nat.
Proof.
  unfold IsEnd. rewrite main_manager_Size. by rewrite Nat.leb_gt.
Qed.

Lemma main_manager_node (index : nat) :
  IsEnd (main_manager data) index = false →
  IndexToNode (main_manager data) index = index.
Proof.
  intros Hend%main_manager_IsEnd. unfold IndexToNode, main_manager. simpl.
  by destruct (Nat.ltb_spec index (length (distance_matrix data))); [|lia].
Qed.

Lemma main_manager_end_node (index : nat) :
  IsEnd (main_manager data) index = true →
  IndexToNode (main_manager data) index = 0%nat.
Proof.
  intros Hend. unfold IsEnd in Hend. rewrite main_manager_Size in Hend.
  apply Nat.leb_le in Hend.
  destruct (create_data_model_fields _ _ Hdata) as (_ & Hd & _).
  unfold IndexToNode, main_manager. simpl.
  by destruct (Nat.ltb_spec index (length (distance_matrix data))); [lia|].
Qed.

Lemma path_nodes (solution : Assignment) (index : nat) (l : list nat) :
  path (main_manager data) solution index l →
  IndexToNode (main_manager data) <$> l = l.
Proof.
  induction 1 as [|index l Hend Hp IH]; [done|].
  by rewrite fmap_cons, IH, main_manager_node.
Qed.

(** The cost of an arc out of a node is the entry of the distance matrix. *)
Lemma main_arc_cost (from_index to_index v : nat) :
  IsEnd (main_manager data) from_index = false →
  from_index ≠ to_index →
  GetArcCostForVehicle (main_routing data) from_index to_index v =
    Some (cost (distance_matrix data) from_index
            (IndexToNode (main_manager data) to_index)).
Proof.
  intros Hfrom Hne. unfold GetArcCostForVehicle.
  rewrite decide_False by done.
  destruct (main_routing_fields data) as (_ & -> & -> & _). simpl.
  unfold distance_callback. rewrite (main_manager_node _ Hfrom).
  apply main_manager_IsEnd in Hfrom.
  destruct (create_data_model_entries _ _ Hdata) as (Hlen & Hrows & _).
  destruct (lookup_lt_is_Some_2 (distance_matrix data) from_index Hfrom)
    as [row Hrow].
  unfold cost. rewrite Hrow. simpl.
  assert (Hto : (IndexToNode (main_manager data) to_index < length row)%nat).
  { rewrite (Hrows _ _ Hrow), <- Hlen. unfold IndexToNode, main_manager. simpl.
    destruct (Nat.ltb_spec to_index (length (distance_matrix data))); [done|].
    destruct (create_data_model_fields _ _ Hdata) as (_ & -> & _). lia. }
  destruct (lookup_lt_is_Some_2 row _ Hto) as [c Hc]. by rewrite Hc.
Qed.

(** With enough fuel the walk returns the route and the sum of the costs of
    its arcs, the arc back to the depot included. *)
Lemma walk_route (solution : Assignment) (v : nat) (index : nat) (l : list nat) :
  path (main_manager data) solution index l →
  ∀ fuel ixs dist, (length l < fuel)%nat →
    walk (main_routing data) solution v fuel index ixs dist =
      Some (ixs ++ l, dist + arc_cost_sum (distance_matrix data) (l ++ [0%nat])).
Proof.
  destruct (main_routing_fields data) as (Hm & _).
  induction 1 as [index Hend|index l Hend Hp IH]; intros fuel ixs dist Hfuel.
  - destruct fuel as [|fuel]; [simpl in Hfuel; lia|]. simpl.
    rewrite Hm, Hend. by rewrite app_nil_r, Z.add_0_r.
  - destruct fuel as [|fuel]; [simpl in Hfuel; lia|]. simpl.
    rewrite Hm, Hend, (main_manager_node _ Hend).
    assert (Hne : index ≠ solution index).
    { intros Heq. 
      assert (Hact : active solution index = true).
      { apply (path_active (main_manager data) solution index (index :: l));
          [by constructor|left]. }
      unfold active in Hact. apply bool_decide_eq_true in Hact. congruence. }
    rewrite (main_arc_cost _ _ _ Hend Hne). simpl.
    rewrite IH by (simpl in Hfuel; lia).
    rewrite <- app_assoc. simpl. f_equal. f_equal.
    rewrite <- Z.add_assoc. f_equal.
    pose proof (path_next _ _ _ _ Hp) as Hnext.
    destruct l as [|j l']; simpl.
    + by rewrite (main_manager_end_node _ Hnext), Z.add_0_r.
    + destruct Hnext as (-> & Hj & _). by rewrite (main_manager_node _ Hj).
Qed.

Lemma print_solution_walk (solution : Assignment) (fuel : nat) :
  print_solution data (main_routing data) solution fuel =
    '(ixs, dist) ← walk (main_routing data) solution 0 fuel
                     (Start (manager (main_routing data)) 0) [] 0;
    Some {| indexes := ixs; route_distance := dist;
            max_route_distance := Z.max dist 0 |}.
Proof.
  destruct (create_data_model_fields _ _ Hdata) as (Hv & _ & _).
  unfold print_solution. rewrite Hv. simpl.
  destruct (walk _ _ _ _ _ _ _) as [[ixs dist]|]; done.
Qed.

End Walk.

(** ** Solved routes *)

Section Solved.

Import gcodeopt spec ortools cvrp.

Lemma active_count_pair (solution : Assignment) (a b : nat) :
  active_count solution [a; b] =
    ((if active solution a then 1 else 0) + (if active solution b then 1 else 0))%nat.
Proof.
  unfold active_count. rewrite !filter_cons, filter_nil.
  destruct (active solution a), (active solution b); simpl;
    repeat case_decide; done.
Qed.

(** A route of a solution of the model of [main] has at most one of every
    pair of twins. *)
Lemma solution_pair_exclusive (data : Data) (solution : Assignment)
    (index : nat) (l : list nat) :
  (∀ d, d ∈ disjunctions (main_routing data) → disjunction_holds solution d) →
  path (main_manager data) solution index l →
  pair_exclusive (length (distance_matrix data)) l.
Proof.
  intros Hdis Hp k Hk [H1 H2].
  destruct (Hdis _ (main_routing_pairs data k Hk)) as [Hle _].
  cbn [indices max_cardinality] in Hle. rewrite active_count_pair in Hle.
  rewrite (path_active _ _ _ _ _ Hp H1), (path_active _ _ _ _ _ Hp H2) in Hle.
  lia.
Qed.

(** C7. For a solved route, the walk returns (given enough turns) the nodes
    of the route, and the route distance it reports is the sum of the
    entries of the distance matrix over the consecutive pairs of nodes of
    the route, from the depot back to the depot; every node of the route is
    an index of the matrix, so that every arc has its entry. *)
Theorem route_distance_sums_arcs {libm : py.Libm}
    (segs : list Node) (data : Data)
    (solution : Assignment) (l : list nat) (fuel : nat) :
  create_data_model libm segs = Some data →
  path (manager (main_routing data)) solution
    (Start (manager (main_routing data)) 0) l →
  (length l < fuel)%nat →
  (l ≠ [] → ∀ n, n ∈ l ++ [data_depot data] →
     (n < length (distance_matrix data))%nat) ∧
  ∃ p, print_solution data (main_routing data) solution fuel = Some p ∧
       indexes p = l ∧
       route_distance p =
         arc_cost_sum (distance_matrix data) (l ++ [data_depot data]).
Proof.
  intros Hdata Hp Hfuel.
  rewrite (print_solution_walk _ _ Hdata).
  destruct (main_routing_fields data) as (Hm & _). rewrite Hm in *.
  destruct (create_data_model_fields _ _ Hdata) as (_ & Hdepot & _).
  rewrite Hdepot. split.
  - intros Hl n Hn.
    assert (H0 : (0 < length (distance_matrix data))%nat).
    { destruct l as [|i l']; [done|].
      assert (Hi : IsEnd (main_manager data) i = false)
        by (eapply path_not_end; [exact Hp|left]).
      apply (main_manager_IsEnd _ _ Hdata) in Hi. lia. }
    apply elem_of_app in Hn as [Hn|Hn].
    + apply (main_manager_IsEnd _ _ Hdata). by eapply path_not_end.
    + apply list_elem_of_singleton in Hn as ->. done.
  - rewrite (walk_route _ _ Hdata _ _ _ _ Hp) by done. simpl.
    eexists. split; [done|]. simpl. split; [done|lia].
Qed.

Lemma example_path :
  path (manager (main_routing example.data)) example.sol
    (Start (manager (main_routing example.data)) 0) [0; 2]%nat.
Proof.
  apply path_step; [reflexivity|].
  apply (path_step _ _ 2%nat); [reflexivity|].
  apply path_end. reflexivity.
Defined.

Lemma example_data_any (libm : py.Libm) :
  create_data_model libm example.segs = Some example.data.
Proof. vm_compute. reflexivity. Qed.

Lemma example_data : create_data_model example.pow example.segs = Some example.data.
Proof. vm_compute. reflexivity. Defined.

Lemma route_distance_sums_arcs_witness :
  (length [0; 2]%nat < 3)%nat ∧
  ([0; 2]%nat ≠ [] → ∀ n, n ∈ [0; 2]%nat ++ [data_depot example.data] →
     (n < length (distance_matrix example.data))%nat) ∧
  ∃ p, print_solution example.data (main_routing example.data) example.sol 3 = Some p ∧
       indexes p = [0; 2]%nat ∧
       route_distance p =
         arc_cost_sum (distance_matrix example.data)
           ([0; 2]%nat ++ [data_depot example.data]).
Proof.
  assert (H : (length [0; 2]%nat < 3)%nat) by (simpl; lia).
  split; [exact H|].
  exact (route_distance_sums_arcs example.segs example.data example.sol
           [0; 2]%nat 3 example_data example_path H).
Defined.

Lemma example_disjunctions :
  disjunctions (main_routing example.data) =
    [{| indices := [0; 1]%nat; penalty := kNoPenalty; max_cardinality := 1 |};
     {| indices := [2; 3]%nat; penalty := kNoPenalty; max_cardinality := 1 |}].
Proof. reflexivity. Qed.

Lemma example_solution : is_solution (main_routing example.data) example.sol.
Proof.
  exists [0; 2]%nat. split_and!.
  - exact example_path.
  - intros d Hd. rewrite example_disjunctions in Hd.
    apply elem_of_cons in Hd as [->|Hd];
      [|apply elem_of_cons in Hd as [->|Hd]; [|by apply elem_of_nil in Hd]];
      (split; [vm_compute; lia|intros _; vm_compute; reflexivity]).
  - intros d Hd.
    destruct (main_routing_fields example.data) as (Hm & Hcb & _ & Hdim & _).
    rewrite Hdim in Hd. apply list_elem_of_singleton in Hd as ->.
    intros cb total Hlook Hsum. rewrite Hcb in Hlook. simpl in Hlook.
    injection Hlook as <-. rewrite Hm in Hsum. vm_compute in Hsum.
    injection Hsum as <-. simpl. lia.
Qed.

Lemma example_report :
  main_report example.data example.sol 3 = Some example.report.
Proof. reflexivity. Qed.

(** C1. A route the solver returns for the model built by [main] holds at
    most one of the two nodes 2k and 2k + 1 of every segment: the disjunction
    of every pair is registered, and a solution satisfies every registered
    disjunction. *)
Theorem solved_route_pair_exclusive {libm : py.Libm}
    (segs : list Node) (data : Data)
    (solution : Assignment) (fuel : nat) (r : Report) :
  create_data_model libm segs = Some data →
  is_solution (main_routing data) solution →
  main_report data solution fuel = Some r →
  pair_exclusive (length (distance_matrix data)) (solution_route r).
Proof.
  intros Hdata (_ & _ & Hdis & _) Hr.
  unfold main_report in Hr. rewrite (print_solution_walk _ _ Hdata) in Hr.
  destruct (walk _ _ _ _ _ _ _) as [[ixs dist]|] eqn:Hw; simpl in Hr; [|done].
  injection Hr as <-. simpl.
  apply walk_inv in Hw as (l & Hp & ->).
  destruct (main_routing_fields data) as (Hm & _). rewrite Hm in *.
  rewrite (path_nodes _ _ Hdata _ _ _ Hp). simpl.
  by eapply solution_pair_exclusive.
Qed.

Lemma solved_route_pair_exclusive_witness :
  create_data_model example.pow example.segs = Some example.data ∧
  is_solution (main_routing example.data) example.sol ∧
  main_report example.data example.sol 3 = Some example.report ∧
  pair_exclusive (length (distance_matrix example.data))
    (solution_route example.report).
Proof.
  split; [exact example_data|]. split; [exact example_solution|].
  split; [exact example_report|].
  exact (solved_route_pair_exclusive example.segs example.data example.sol 3
           example.report example_data example_solution example_report).
Defined.

End Solved.

Section Extractor.

Import gcodeopt spec ortools cvrp.

(** C6, as stated, fails: for the route 0 -> 2 -> end over four nodes, the
    sequence the extractor returns is [0; 2]; the depot index 0 is its first
    member. *)
Lemma extractor_emits_depot :
  create_data_model example.pow example.segs = Some example.data ∧
  is_solution (main_routing example.data) example.sol ∧
  ∃ r, main_report example.data example.sol 3 = Some r ∧
       solution_route r = [0; 2]%nat ∧
       ¬ (0%nat ∉ solution_route r).
Proof.
  split; [exact example_data|]. split; [exact example_solution|].
  exists example.report. split; [exact example_report|]. split; [reflexivity|].
  intros H. apply H. simpl. left.
Qed.

(** C6, amended. For a solved route over a sequence of nodes that is not
    empty, the extractor returns (given enough turns) the nodes of the route
    in route order: the depot index 0 first, then the visited nodes, none of
    them the depot and none of them twice; the closing depot is not
    returned.  The reported set of dropped nodes is the node indices
    0 .. N-1 that are not in the returned sequence. *)
Theorem extractor_emits_route {libm : py.Libm} (segs : list Node) (data : Data)
    (solution : Assignment) (l : list nat) (fuel : nat) :
  segs ≠ [] →
  create_data_model libm segs = Some data →
  path (manager (main_routing data)) solution
    (Start (manager (main_routing data)) 0) l →
  (length l < fuel)%nat →
  ∃ r rest,
    main_report data solution fuel = Some r ∧
    solution_route r = l ∧
    l = 0%nat :: rest ∧
    (0%nat ∉ rest) ∧
    NoDup rest ∧
    (∀ n, n ∈ rest → (n < length segs)%nat) ∧
    (∀ n, n ∈ dropped_nodes r ↔ (n < length segs)%nat ∧ n ∉ solution_route r) ∧
    routed r = length l ∧ total r = length segs.
Proof.
  intros Hne Hdata Hp Hfuel.
  destruct (create_data_model_entries _ _ Hdata) as (Hlen & _ & _).
  destruct (create_data_model_fields _ _ Hdata) as (_ & Hdepot & _).
  destruct (main_routing_fields data) as (Hm & _).
  assert (Hprint : print_solution data (main_routing data) solution fuel =
    Some {| indexes := l;
            route_distance :=
              0 + arc_cost_sum (distance_matrix data) (l ++ [0%nat]);
            max_route_distance :=
              Z.max (0 + arc_cost_sum (distance_matrix data) (l ++ [0%nat])) 0 |}).
  { rewrite (print_solution_walk _ _ Hdata). rewrite Hm in *.
    by rewrite (walk_route _ _ Hdata _ _ _ _ Hp) by done. }
  rewrite Hm in Hp.
  assert (Hstart : Start (main_manager data) 0 = 0%nat) by exact Hdepot.
  rewrite Hstart in Hp.
  assert (Hnot_end : IsEnd (main_manager data) 0 = false).
  { apply (main_manager_IsEnd _ _ Hdata). rewrite Hlen.
    destruct segs; [done|simpl; lia]. }
  destruct l as [|i rest]; [inversion Hp; congruence|].
  inversion Hp as [|? ? Hend Hrest]; subst i.
  pose proof (path_NoDup _ _ _ _ Hp) as Hnd. apply NoDup_cons in Hnd as [H0 Hnd].
  unfold main_report. rewrite Hprint. simpl.
  eexists _, rest. split; [done|]. simpl. split_and!; try done.
  - intros n Hn. rewrite <- Hlen. apply (main_manager_IsEnd _ _ Hdata).
    eapply path_not_end; [exact Hp|by right].
  - intros n. rewrite elem_of_difference, !elem_of_list_to_set.
    unfold py.range. rewrite elem_of_seq, Hlen.
    rewrite not_elem_of_union, not_elem_of_singleton, elem_of_list_to_set,
      not_elem_of_cons.
    split.
    + intros [[_ Hn] [Hn0 Hnr]]. split; [lia|by split].
    + intros [Hn [Hn0 Hnr]]. split; [lia|by split].
Qed.

Lemma example_segs_not_nil : example.segs ≠ [].
Proof. discriminate. Qed.

Lemma extractor_emits_route_witness :
  example.segs ≠ [] ∧
  create_data_model example.pow example.segs = Some example.data ∧
  (length [0; 2]%nat < 3)%nat ∧
  ∃ r rest,
    main_report example.data example.sol 3 = Some r ∧
    solution_route r = [0; 2]%nat ∧
    [0; 2]%nat = 0%nat :: rest ∧
    (0%nat ∉ rest) ∧
    NoDup rest ∧
    (∀ n, n ∈ rest → (n < length example.segs)%nat) ∧
    (∀ n, n ∈ dropped_nodes r ↔
          (n < length example.segs)%nat ∧ n ∉ solution_route r) ∧
    routed r = length [0; 2]%nat ∧ total r = length example.segs.
Proof.
  assert (H : (length [0; 2]%nat < 3)%nat) by (simpl; lia).
  split; [exact example_segs_not_nil|]. split; [exact example_data|].
  split; [exact H|].
  exact (extractor_emits_route example.segs example.data example.sol [0; 2]%nat 3
           example_segs_not_nil example_data example_path H).
Defined.

End Extractor.

(** ** Disjunctions and the initial route *)

Section Disjunctions.

Import gcodeopt spec ortools cvrp.

(** C4, as stated, fails: over four nodes the disjunction of the pair (2, 3)
    is registered with the default penalty [kNoPenalty], which is negative;
    the assignment with the route 0 -> end leaves out both 2 and 3, and it
    does not satisfy that disjunction. *)
Lemma omitting_both_twins_infeasible :
  create_data_model example.pow example.segs = Some example.data ∧
  ∃ d, d ∈ disjunctions (main_routing example.data) ∧
       indices d = [2; 3]%nat ∧
       active example.sol_skip 2 = false ∧
       active example.sol_skip 3 = false ∧
       ¬ disjunction_holds example.sol_skip d ∧
       ¬ (0 <= penalty d).
Proof.
  split; [exact example_data|].
  exists {| indices := [2; 3]%nat; penalty := kNoPenalty; max_cardinality := 1 |}.
  split_and!; try reflexivity.
  - rewrite example_disjunctions. right. left.
  - intros [_ Hexact]. specialize (Hexact ltac:(reflexivity)).
    vm_compute in Hexact. discriminate.
  - simpl. unfold kNoPenalty. lia.
Qed.

(** C4, amended. For every pair (2k, 2k + 1) the disjunction is registered
    with the defaults of the library, no penalty and cardinality 1, as every
    disjunction of the model is.  An assignment satisfies it exactly when
    one of the two nodes is active, that is has a successor other than
    itself, and the other is not.  For an assignment every active node of
    which is on the route of the vehicle, as the routing library has it of
    its solutions, that is exactly when one of the two nodes is on the route
    and the other is not.  Leaving out both is not feasible, and no drop
    penalty is defined. *)
Theorem pair_disjunction_mandatory (data : Data) (k : nat) :
  (2 * k + 1 < length (distance_matrix data))%nat →
  (∀ d, d ∈ disjunctions (main_routing data) →
        penalty d = kNoPenalty ∧ max_cardinality d = 1%nat) ∧
  ∃ d, d ∈ disjunctions (main_routing data) ∧
       indices d = [(2 * k)%nat; (2 * k + 1)%nat] ∧
       ∀ solution : Assignment,
         (disjunction_holds solution d ↔
          active solution (2 * k) = negb (active solution (2 * k + 1))) ∧
         ∀ l,
           path (manager (main_routing data)) solution
             (Start (manager (main_routing data)) 0) l →
           (∀ i, (i < length (distance_matrix data))%nat →
                 active solution i = true → i ∈ l) →
           (disjunction_holds solution d ↔
            (((2 * k)%nat ∈ l) ∧ ((2 * k + 1)%nat ∉ l)) ∨
            (((2 * k)%nat ∉ l) ∧ ((2 * k + 1)%nat ∈ l))).
Proof.
  intros Hk. split.
  - intros d Hd. destruct (main_routing_fields data) as (_ & _ & _ & _ & Hdis).
    rewrite Hdis in Hd. apply list_elem_of_fmap in Hd as (i & -> & _). done.
  - eexists. split; [exact (main_routing_pairs data k Hk)|].
    split; [done|]. intros solution.
    match goal with |- (?holds ↔ _) ∧ _ =>
      assert (Hiff : holds ↔
                active solution (2 * k) = negb (active solution (2 * k + 1)))
    end.
    { unfold disjunction_holds. cbn [indices max_cardinality penalty].
      rewrite active_count_pair. unfold kNoPenalty.
      destruct (active solution (2 * k)), (active solution (2 * k + 1)); simpl;
        split; try done; try lia. }
    split; [exact Hiff|]. intros l Hp Hall. rewrite Hiff.
    assert (Ha : ∀ i, (i < length (distance_matrix data))%nat →
                      active solution i = true ↔ i ∈ l).
    { intros i Hi. split; [by apply Hall|]. intros Hin.
      by eapply path_active. }
    pose proof (Ha (2 * k)%nat ltac:(lia)) as H0.
    pose proof (Ha (2 * k + 1)%nat Hk) as H1.
    destruct (active solution (2 * k)), (active solution (2 * k + 1)); simpl;
      intuition congruence.
Qed.

Lemma pair_disjunction_mandatory_witness :
  (2 * 1 + 1 < length (distance_matrix example.data))%nat ∧
  (∀ d, d ∈ disjunctions (main_routing example.data) →
        penalty d = kNoPenalty ∧ max_cardinality d = 1%nat) ∧
  ∃ d, d ∈ disjunctions (main_routing example.data) ∧
       indices d = [(2 * 1)%nat; (2 * 1 + 1)%nat] ∧
       ∀ solution : Assignment,
         (disjunction_holds solution d ↔
          active solution (2 * 1) = negb (active solution (2 * 1 + 1))) ∧
         ∀ l,
           path (manager (main_routing example.data)) solution
             (Start (manager (main_routing example.data)) 0) l →
           (∀ i, (i < length (distance_matrix example.data))%nat →
                 active solution i = true → i ∈ l) →
           (disjunction_holds solution d ↔
            (((2 * 1)%nat ∈ l) ∧ ((2 * 1 + 1)%nat ∉ l)) ∨
            (((2 * 1)%nat ∉ l) ∧ ((2 * 1 + 1)%nat ∈ l))).
Proof.
  assert (H : (2 * 1 + 1 < length (distance_matrix example.data))%nat)
    by (simpl; lia).
  split; [exact H|].
  exact (pair_disjunction_mandatory example.data 1 H).
Defined.

(** C5. The initial route handed to the solver is the nodes 1 .. N-1 in
    ascending order, each once.  With two segments or more it holds both
    twins 2 and 3: it is not pair exclusive, and no assignment that follows
    it from the depot is a solution of the model. *)
Theorem initial_route_not_feasible {libm : py.Libm}
    (segs : list Node) (data : Data) :
  create_data_model libm segs = Some data →
  (4 <= length segs)%nat →
  ∃ route,
    initial_routes data = [route] ∧
    route = seq 1 (length segs - 1) ∧
    ¬ pair_exclusive (length segs) route ∧
    ∀ solution : Assignment,
      path (manager (main_routing data)) solution
        (Start (manager (main_routing data)) 0) (0%nat :: route) →
      ¬ is_solution (main_routing data) solution.
Proof.
  intros Hdata Hlen.
  destruct (create_data_model_fields _ _ Hdata) as (_ & _ & Hinit).
  destruct (create_data_model_entries _ _ Hdata) as (Hn & _ & _).
  rewrite Hn in Hinit. unfold py.range2 in Hinit.
  exists (seq 1 (length segs - 1)). split_and!; try done.
  - intros Hex. apply (Hex 1%nat); [lia|].
    split; apply elem_of_seq; lia.
  - intros solution Hp (l & _ & Hdis & _).
    destruct (main_routing_fields data) as (Hm & _). rewrite Hm in Hp.
    apply (solution_pair_exclusive data solution _ _ Hdis Hp 1%nat); [lia|].
    split; right; apply elem_of_seq; lia.
Qed.

Lemma initial_route_not_feasible_witness :
  create_data_model example.pow example.segs = Some example.data ∧
  (4 <= length example.segs)%nat ∧
  ∃ route,
    initial_routes example.data = [route] ∧
    route = seq 1 (length example.segs - 1) ∧
    ¬ pair_exclusive (length example.segs) route ∧
    ∀ solution : Assignment,
      path (manager (main_routing example.data)) solution
        (Start (manager (main_routing example.data)) 0) (0%nat :: route) →
      ¬ is_solution (main_routing example.data) solution.
Proof.
  assert (H : (4 <= length example.segs)%nat) by (simpl; lia).
  split; [exact example_data|]. split; [exact H|].
  exact (initial_route_not_feasible example.segs example.data example_data H).
Defined.

End Disjunctions.

(** ** Claims on segments *)

Section SegmentClaims.

Import gcodeopt spec ortools cvrp.

(** C9, as stated, fails.  In a segment whose first primitive gives x = 1
    only and whose second gives (3, 4), the first defined coordinate pair is
    (3, 4), yet the start position is (1, 4); and in a segment of one
    primitive with x = 1 only and one with y = 2 only, no primitive has a
    defined coordinate pair, yet the start position is (1, 2). *)
Lemma startpos_mixes_primitives :
  first_defined_pair example.partX = Some (3, 4)%float ∧
  _startpos example.partX = Some (1, 4)%float ∧
  _startpos example.partX ≠ first_defined_pair example.partX ∧
  first_defined_pair example.partXY = None ∧
  _startpos example.partXY = Some (1, 2)%float.
Proof.
  split_and!; try reflexivity.
  intros H.
  apply (f_equal (fun o => Prim2SF (default 0%float (fst <$> o)))) in H.
  vm_compute in H. discriminate.
Qed.

(** C9, amended. The start position of a segment is the pair of the first
    defined x and the first defined y met when its primitives are scanned
    forward, each axis on its own, so the two may come from different
    primitives; the end position is the same on the backward scan.  A
    position is undefined exactly when an axis is defined on no primitive. *)
Theorem endpoints_by_axis (ls : list Line) :
  _startpos ls =
    (a ← first_defined x ls; b ← first_defined y ls; Some (a, b)) ∧
  _endpos ls =
    (a ← first_defined x (reverse ls); b ← first_defined y (reverse ls);
     Some (a, b)) ∧
  (_startpos ls = None ↔
     (∀ line, line ∈ ls → x line = None) ∨ (∀ line, line ∈ ls → y line = None)) ∧
  (_endpos ls = None ↔ _startpos ls = None).
Proof.
  assert (Hs : ∀ l, scan None None l =
    (a ← first_defined x l; b ← first_defined y l; Some (a, b))).
  { intros l. rewrite scan_axes; [done|]. intros [[? ?] _]. discriminate. }
  assert (Hnone : ∀ axis, first_defined axis ls = None ↔
                          ∀ line, line ∈ ls → axis line = None).
  { intros axis. rewrite eq_None_not_Some, first_defined_is_Some. split.
    - intros Hno line Hl. apply eq_None_not_Some. intros Hsome. apply Hno. eauto.
    - intros Hall (line & Hl & Hsome). rewrite (Hall line Hl) in Hsome.
      by destruct Hsome. }
  split_and!.
  - apply Hs.
  - apply Hs.
  - unfold _startpos. rewrite Hs, <- !Hnone.
    destruct (first_defined x ls), (first_defined y ls); simpl;
      split; try done; eauto; intros [?|?]; done.
  - rewrite !eq_None_not_Some. by rewrite startpos_endpos_defined.
Qed.

(** Where every primitive has both words or neither, the start position is
    the first defined coordinate pair. *)
Lemma startpos_first_pair (ls : list Line) :
  (∀ line, line ∈ ls → is_Some (x line) ↔ is_Some (y line)) →
  _startpos ls = first_defined_pair ls.
Proof.
  unfold _startpos. induction ls as [|line ls IH]; intros Hall; [done|].
  simpl. unfold line_pos.
  pose proof (Hall line ltac:(left)) as Hline.
  destruct (x line) as [a|], (y line) as [b|]; simpl; try done.
  - destruct (proj1 Hline ltac:(eauto)). discriminate.
  - destruct (proj2 Hline ltac:(eauto)). discriminate.
  - apply IH. intros l Hl. apply Hall. by right.
Qed.

(** C8, as stated, fails in its second half.  The loop leaves the list
    [segments] and nothing else: a program with no degenerate part and a
    program with two leave the same list, so that no count of the excluded
    parts reaches the caller. *)
Lemma degenerate_count_not_surfaced :
  degenerate_count [example.partA] = 0%nat ∧
  degenerate_count [example.partE; example.partA; example.partE] = 2%nat ∧
  segments [example.partE; example.partA; example.partE] =
    segments [example.partA] ∧
  ¬ ∃ count : list Node -> nat,
      ∀ parts, count (segments parts) = degenerate_count parts.
Proof.
  split_and!; try reflexivity.
  intros [count Hcount].
  pose proof (Hcount [example.partA]) as H0.
  pose proof (Hcount [example.partE; example.partA; example.partE]) as H2.
  change (segments [example.partE; example.partA; example.partE])
    with (segments [example.partA]) in H2.
  rewrite H0 in H2. vm_compute in H2. discriminate.
Qed.

(** C8, amended. A part whose start or end position is undefined
    contributes no node, forward or reversed, to the sequence the distance
    matrix is built from; every other part contributes its two nodes, so
    that every node has both positions and the matrix has two rows per part
    that is not degenerate.  No count of the excluded parts is produced. *)
Theorem degenerate_segments_excluded {libm : py.Libm}
    (parts : list (list Line)) :
  (∀ part, part ∈ parts →
     startpos (Segment_init part) = None ∨ endpos (Segment_init part) = None →
     (Forward (Segment_init part) ∉ segments parts) ∧
     (ReversedSegment (Segment_init part) ∉ segments parts)) ∧
  (∀ part, part ∈ parts → degenerate part = false →
     Forward (Segment_init part) ∈ segments parts ∧
     ReversedSegment (Segment_init part) ∈ segments parts) ∧
  (∀ n, n ∈ segments parts →
     is_Some (node_startpos n) ∧ is_Some (node_endpos n)) ∧
  length (segments parts) = (2 * (length parts - degenerate_count parts))%nat ∧
  (∀ data, create_data_model libm (segments parts) = Some data →
     length (distance_matrix data) =
       (2 * (length parts - degenerate_count parts))%nat).
Proof.
  split_and!.
  - intros part _ Hdeg. split; intros Hin; apply segments_defined in Hin;
      simpl in Hin; destruct Hin as [[? Hs] [? He]], Hdeg as [Hd|Hd];
      simpl in Hd; congruence.
  - intros part Hin Hdeg. rewrite segments_flat_map.
    split; apply list_elem_of_In, in_flat_map; exists part;
      (split; [by apply list_elem_of_In|]);
      unfold nodes_of; rewrite Hdeg; simpl; eauto.
  - intros n Hn. apply segments_defined in Hn as [Hs He].
    destruct n; simpl in *; done.
  - apply segments_length.
  - intros data Hdata.
    apply create_data_model_entries in Hdata as (-> & _).
    apply segments_length.
Qed.

End SegmentClaims.

(** ** The depot *)

Section Depot.

Import gcodeopt spec ortools cvrp.

(** The first member of [segments] is the forward orientation of the first
    part that is not degenerate. *)
Lemma segments_first (parts : list (list Line)) :
  segments parts ≠ [] →
  ∃ pre part post,
    parts = pre ++ part :: post ∧
    Forall (fun p => degenerate p = true) pre ∧
    degenerate part = false ∧
    segments parts =
      Forward (Segment_init part) :: ReversedSegment (Segment_init part)
        :: segments post.
Proof.
  rewrite segments_flat_map.
  induction parts as [|part parts IH]; intros Hne; [done|].
  cbn [flat_map] in *. destruct (degenerate part) eqn:Hdeg.
  - unfold nodes_of in *. rewrite Hdeg in *. simpl in Hne |- *.
    destruct (IH Hne) as (pre & p & post & -> & Hpre & Hp & ->).
    exists (part :: pre), p, post. split_and!; try done.
    by constructor.
  - exists [], part, parts. unfold nodes_of. rewrite Hdeg.
    rewrite segments_flat_map. split_and!; try done.
Qed.

(** An entry off the diagonal, by the formula of the design document. *)
Lemma matrix_entry_floor {libm : py.Libm}
    (segs : list Node) (data : Data) (i j : nat)
    (from_segment to_segment : Node) :
  create_data_model libm segs = Some data →
  segs !! i = Some from_segment → segs !! j = Some to_segment → i ≠ j →
  ∃ e s c, node_endpos from_segment = Some e ∧
           node_startpos to_segment = Some s ∧
           floor_distance libm e s = Some c ∧
           cost (distance_matrix data) i j = c ∧
           (row ← distance_matrix data !! i; row !! j) = Some c.
Proof.
  intros Hdata Hfrom Hto Hij.
  apply create_data_model_entries in Hdata as (_ & _ & Hentries).
  destruct (Hentries i j _ _ Hfrom Hto) as (row & c & Hi & Hj & Hc).
  apply entry_off_diagonal in Hc as (e & s & d & He & Hs & Hd & Hint); [|done].
  exists e, s, c. unfold cost. rewrite Hi. simpl. rewrite Hj.
  split_and!; try done.
  apply distance_Some in Hd as (sq0 & sq1 & H0 & H1 & ->).
  unfold floor_distance. rewrite H0, H1. simpl.
  by rewrite <- int_sqrt_floor.
Qed.

(** C3, as stated, fails.  For the program of two strokes, on every
    platform, node 0 is the forward orientation of the first stroke of the
    input, the cost from node 0 to node 2 is 1 and the cost from node 2 to
    node 0 is 1. *)
Lemma depot_is_a_real_segment :
  (∀ libm, create_data_model libm (segments [example.partA; example.partB])
           = Some example.data) ∧
  segments [example.partA; example.partB] !! 0%nat =
    Some (Forward (Segment_init example.partA)) ∧
  data_depot example.data = 0%nat ∧
  distance_callback example.data (main_manager example.data) 0%nat 2%nat = Some 1 ∧
  distance_callback example.data (main_manager example.data) 2%nat 0%nat = Some 1 ∧
  ¬ (∀ j : nat, (j < 4)%nat →
       cost (distance_matrix example.data) 0%nat j = 0 ∧
       cost (distance_matrix example.data) j 0%nat = 0).
Proof.
  split; [exact example_data_any|]. split_and!; try reflexivity.
  intros H. destruct (H 2%nat ltac:(lia)) as [H02 _].
  vm_compute in H02. discriminate.
Qed.

(** C3, amended. Node 0, the depot at which every route starts and ends, is
    not a synthetic anchor: it is the forward orientation of the first
    segment of the input that is not degenerate.  The transit costs out of
    it and into it are the entries of row 0 and of column 0 of the distance
    matrix, computed off the diagonal as every other entry is: the floor
    of the float that Python computes for the square root of the sum of the
    squares of the differences, from an end position to a start position. *)
Theorem depot_is_first_segment {libm : py.Libm}
    (parts : list (list Line)) (data : Data) :
  segments parts ≠ [] →
  create_data_model libm (segments parts) = Some data →
  ∃ pre part post,
    parts = pre ++ part :: post ∧
    Forall (fun p => degenerate p = true) pre ∧
    degenerate part = false ∧
    segments parts !! 0%nat = Some (Forward (Segment_init part)) ∧
    data_depot data = 0%nat ∧
    IndexToNode (manager (main_routing data))
      (Start (manager (main_routing data)) 0) = 0%nat ∧
    IndexToNode (manager (main_routing data))
      (End (manager (main_routing data)) 0) = 0%nat ∧
    ∀ j to_segment,
      j ≠ 0%nat → segments parts !! j = Some to_segment →
      ∃ e0 s0 e s,
        endpos (Segment_init part) = Some e0 ∧
        startpos (Segment_init part) = Some s0 ∧
        node_endpos to_segment = Some e ∧
        node_startpos to_segment = Some s ∧
        distance_callback data (manager (main_routing data)) 0%nat j =
          floor_distance libm e0 s ∧
        distance_callback data (manager (main_routing data)) j 0%nat =
          floor_distance libm e s0.
Proof.
  intros Hne Hdata.
  destruct (segments_first parts Hne) as (pre & part & post & Hparts & Hpre & Hpart & Hsegs).
  destruct (create_data_model_fields _ _ Hdata) as (Hv & Hdepot & _).
  destruct (main_routing_fields data) as (Hm & _). rewrite Hm.
  assert (H0 : segments parts !! 0%nat = Some (Forward (Segment_init part)))
    by (by rewrite Hsegs).
  assert (Hend0 : IsEnd (main_manager data) 0 = false).
  { apply (main_manager_IsEnd _ _ Hdata).
    destruct (create_data_model_entries _ _ Hdata) as (-> & _).
    rewrite Hsegs. simpl. lia. }
  exists pre, part, post. split_and!; try done.
  - unfold Start. simpl. rewrite Hdepot. by apply (main_manager_node _ _ Hdata).
  - apply (main_manager_end_node _ _ Hdata).
    unfold IsEnd, End. apply Nat.leb_le. lia.
  - intros j to_segment Hj Hto.
    assert (Hendj : IsEnd (main_manager data) j = false).
    { apply (main_manager_IsEnd _ _ Hdata).
      destruct (create_data_model_entries _ _ Hdata) as (-> & _).
      by eapply lookup_lt_Some. }
    destruct (matrix_entry_floor _ _ 0%nat j _ _ Hdata H0 Hto ltac:(done))
      as (e0 & s & c1 & He0 & Hs & Hf1 & _ & Hc1).
    destruct (matrix_entry_floor _ _ j 0%nat _ _ Hdata Hto H0 Hj)
      as (e & s0 & c2 & He & Hs0 & Hf2 & _ & Hc2).
    exists e0, s0, e, s. split_and!; try done.
    + unfold distance_callback.
      rewrite (main_manager_node _ _ Hdata _ Hend0),
        (main_manager_node _ _ Hdata _ Hendj). by rewrite Hc1, Hf1.
    + unfold distance_callback.
      rewrite (main_manager_node _ _ Hdata _ Hend0),
        (main_manager_node _ _ Hdata _ Hendj). by rewrite Hc2, Hf2.
Qed.

Lemma example_segments_not_nil : segments [example.partA; example.partB] ≠ [].
Proof. discriminate. Qed.

Lemma depot_is_first_segment_witness :
  segments [example.partA; example.partB] ≠ [] ∧
  create_data_model example.pow (segments [example.partA; example.partB]) = Some example.data ∧
  ∃ pre part post,
    [example.partA; example.partB] = pre ++ part :: post ∧
    Forall (fun p => degenerate p = true) pre ∧
    degenerate part = false ∧
    segments [example.partA; example.partB] !! 0%nat =
      Some (Forward (Segment_init part)) ∧
    data_depot example.data = 0%nat ∧
    IndexToNode (manager (main_routing example.data))
      (Start (manager (main_routing example.data)) 0) = 0%nat ∧
    IndexToNode (manager (main_routing example.data))
      (End (manager (main_routing example.data)) 0) = 0%nat ∧
    ∀ j to_segment,
      j ≠ 0%nat → segments [example.partA; example.partB] !! j = Some to_segment →
      ∃ e0 s0 e s,
        endpos (Segment_init part) = Some e0 ∧
        startpos (Segment_init part) = Some s0 ∧
        node_endpos to_segment = Some e ∧
        node_startpos to_segment = Some s ∧
        distance_callback example.data (manager (main_routing example.data)) 0%nat j =
          floor_distance example.pow e0 s ∧
        distance_callback example.data (manager (main_routing example.data)) j 0%nat =
          floor_distance example.pow e s0.
Proof.
  split; [exact example_segments_not_nil|]. split; [exact example_data|].
  exact (depot_is_first_segment [example.partA; example.partB] example.data
           example_segments_not_nil example_data).
Defined.

End Depot.

(** * Further properties of the program *)

(** ** Costs are not negative, and routes stay under the ceiling *)

Section Costs.

Import gcodeopt spec ortools cvrp.

Lemma int_sqrt_nonneg (f : float) (z : Z) : py.int (sqrt f) = Some z → 0 <= z.
Proof.
  unfold py.int.
  destruct (Prim2SF (sqrt f)) as [s|s| |s m e] eqn:Hf; try done.
  - by intros [= <-].
  - rewrite sqrt_spec in Hf. apply SF64sqrt_sign in Hf as ->.
    intros [= <-]. simpl. apply Z.shiftl_nonneg. lia.
Qed.

Lemma entry_nonneg {libm : py.Libm}
    (i j : nat) (from_segment to_segment : Node) (c : Z) :
  entry libm i from_segment j to_segment = Some c → 0 <= c.
Proof.
  destruct (decide (i = j)) as [->|Hij].
  - unfold entry. rewrite decide_True by done. by intros [= <-].
  - intros (e & s & d & _ & _ & Hd & Hint)%entry_off_diagonal; [|done].
    apply distance_Some in Hd as (sq0 & sq1 & _ & _ & ->).
    by eapply int_sqrt_nonneg.
Qed.

Lemma matrix_lookup_nonneg {libm : py.Libm}
    (segs : list Node) (data : Data) (i j : nat)
    (row : list Z) (c : Z) :
  create_data_model libm segs = Some data →
  distance_matrix data !! i = Some row →
  row !! j = Some c →
  0 <= c.
Proof.
  intros Hdata Hrow Hc.
  destruct (create_data_model_entries _ _ Hdata) as (Hlen & Hrows & Hentries).
  destruct (lookup_lt_is_Some_2 segs i) as [from_segment Hfrom].
  { rewrite <- Hlen. by eapply lookup_lt_Some. }
  destruct (lookup_lt_is_Some_2 segs j) as [to_segment Hto].
  { rewrite <- (Hrows _ _ Hrow). by eapply lookup_lt_Some. }
  destruct (Hentries _ _ _ _ Hfrom Hto) as (row' & c' & Hrow' & Hc' & Hentry).
  rewrite Hrow in Hrow'. injection Hrow' as <-.
  rewrite Hc in Hc'. injection Hc' as <-.
  by eapply entry_nonneg.
Qed.

Lemma cost_nonneg {libm : py.Libm}
    (segs : list Node) (data : Data) (i j : nat) :
  create_data_model libm segs = Some data → 0 <= cost (distance_matrix data) i j.
Proof.
  intros Hdata. unfold cost.
  destruct (distance_matrix data !! i) as [row|] eqn:Hrow; simpl; [|done].
  destruct (row !! j) as [c|] eqn:Hc; simpl; [|done].
  by eapply matrix_lookup_nonneg.
Qed.

Lemma arc_cost_sum_nonneg {libm : py.Libm}
    (segs : list Node) (data : Data) (nodes : list nat) :
  create_data_model libm segs = Some data →
  0 <= arc_cost_sum (distance_matrix data) nodes.
Proof.
  intros Hdata. induction nodes as [|a [|b nodes] IH]; simpl; try done.
  pose proof (cost_nonneg segs data a b Hdata). simpl in IH. lia.
Qed.

(** X1. Every entry of the distance matrix is a natural number: the
    truncated square root of a sum of squares is never negative. *)
Theorem distance_matrix_nonneg {libm : py.Libm}
    (segs : list Node) (data : Data) :
  create_data_model libm segs = Some data →
  Forall (Forall (fun c => 0 <= c)) (distance_matrix data).
Proof.
  intros Hdata. apply Forall_lookup. intros i row Hrow.
  apply Forall_lookup. intros j c Hc. by eapply matrix_lookup_nonneg.
Qed.

Lemma distance_matrix_nonneg_witness :
  create_data_model example.pow example.segs = Some example.data ∧
  Forall (Forall (fun c => 0 <= c)) (distance_matrix example.data).
Proof.
  split; [exact example_data|].
  exact (distance_matrix_nonneg example.segs example.data example_data).
Defined.

Lemma distance_callback_cost {libm : py.Libm} (segs : list Node) (data : Data)
    (from_index to_index : nat) :
  create_data_model libm segs = Some data →
  IsEnd (main_manager data) from_index = false →
  distance_callback data (main_manager data) from_index to_index =
    Some (cost (distance_matrix data) from_index
            (IndexToNode (main_manager data) to_index)).
Proof.
  intros Hdata Hfrom. unfold distance_callback.
  rewrite (main_manager_node _ _ Hdata _ Hfrom).
  apply (main_manager_IsEnd _ _ Hdata) in Hfrom.
  destruct (create_data_model_entries _ _ Hdata) as (Hlen & Hrows & _).
  destruct (lookup_lt_is_Some_2 (distance_matrix data) from_index Hfrom)
    as [row Hrow].
  unfold cost. rewrite Hrow. simpl.
  assert (Hto : (IndexToNode (main_manager data) to_index < length row)%nat).
  { rewrite (Hrows _ _ Hrow), <- Hlen. unfold IndexToNode, main_manager. simpl.
    destruct (Nat.ltb_spec to_index (length (distance_matrix data))); [done|].
    destruct (create_data_model_fields _ _ Hdata) as (_ & -> & _). lia. }
  destruct (lookup_lt_is_Some_2 row _ Hto) as [c Hc]. by rewrite Hc.
Qed.

(** The transits the distance dimension adds up along a route are the arc
    costs of the route. *)
Lemma transit_sum_route {libm : py.Libm}
    (segs : list Node) (data : Data) (l : list nat)
    (last : nat) :
  create_data_model libm segs = Some data →
  Forall (fun i => IsEnd (main_manager data) i = false) l →
  IsEnd (main_manager data) last = true →
  transit_sum (distance_callback data (main_manager data)) l last =
    Some (arc_cost_sum (distance_matrix data) (l ++ [0%nat])).
Proof.
  intros Hdata Hl Hlast. induction Hl as [|i l Hi Hl IH]; [done|].
  cbn [transit_sum]. rewrite (distance_callback_cost _ _ _ _ Hdata Hi), IH.
  simpl. f_equal. destruct l as [|j l']; simpl.
  - by rewrite (main_manager_end_node _ _ Hdata _ Hlast).
  - apply Forall_cons in Hl as [Hj _].
    by rewrite (main_manager_node _ _ Hdata _ Hj).
Qed.

Lemma path_Forall_not_end (m : RoutingIndexManager) (solution : Assignment)
    (index : nat) (l : list nat) :
  path m solution index l → Forall (fun i => IsEnd m i = false) l.
Proof.
  intros Hp. apply Forall_forall. intros i Hi. by eapply path_not_end.
Qed.

(** X2. For every solution of the model that [main] builds, the walk returns
    once it is given more turns than the route has nodes, and the route
    distance it reports lies between 0 and the ceiling 60000 of the distance
    dimension; with the single vehicle, the maximum of the route distances
    that is printed last is that same distance. *)
Theorem solution_distance_bounds {libm : py.Libm}
    (segs : list Node) (data : Data)
    (solution : Assignment) :
  create_data_model libm segs = Some data →
  is_solution (main_routing data) solution →
  ∃ l, path (manager (main_routing data)) solution
         (Start (manager (main_routing data)) 0) l ∧
       ∀ fuel, (length l < fuel)%nat →
         ∃ p, print_solution data (main_routing data) solution fuel = Some p ∧
              indexes p = l ∧
              0 <= route_distance p <= 60000 ∧
              max_route_distance p = route_distance p.
Proof.
  intros Hdata (l & Hp & _ & Hdim).
  exists l. split; [done|]. intros fuel Hfuel.
  destruct (main_routing_fields data) as (Hm & Hcb & _ & Hdims & _).
  rewrite (print_solution_walk _ _ Hdata). rewrite Hm in *.
  rewrite (walk_route _ _ Hdata _ _ _ _ Hp) by done. simpl.
  eexists. split; [done|]. simpl.
  pose proof (arc_cost_sum_nonneg segs data (l ++ [0%nat]) Hdata) as Hnn.
  assert (Hceil : arc_cost_sum (distance_matrix data) (l ++ [0%nat]) <= 60000).
  { eapply (Hdim _ ltac:(rewrite Hdims; left)
              (distance_callback data (main_manager data))).
    - by rewrite Hcb.
    - rewrite Hm. apply (transit_sum_route (libm := libm) segs); [done| |].
      + by eapply path_Forall_not_end.
      + unfold IsEnd, End. apply Nat.leb_le. lia. }
  split_and!; try done; lia.
Qed.

Lemma solution_distance_bounds_witness :
  create_data_model example.pow example.segs = Some example.data ∧
  is_solution (main_routing example.data) example.sol ∧
  ∃ l, path (manager (main_routing example.data)) example.sol
         (Start (manager (main_routing example.data)) 0) l ∧
       ∀ fuel, (length l < fuel)%nat →
         ∃ p, print_solution example.data (main_routing example.data)
                example.sol fuel = Some p ∧
              indexes p = l ∧
              0 <= route_distance p <= 60000 ∧
              max_route_distance p = route_distance p.
Proof.
  split; [exact example_data|]. split; [exact example_solution|].
  exact (solution_distance_bounds example.segs example.data example.sol
           example_data example_solution).
Defined.

End Costs.

(** ** When the distance matrix can be built *)

Section Building.

Import gcodeopt spec ortools cvrp.

Lemma segments_node_positions (parts : list (list Line)) (i : nat) (n : Node) :
  segments parts !! i = Some n →
  is_Some (node_startpos n) ∧ is_Some (node_endpos n).
Proof.
  intros Hn. apply list_elem_of_lookup_2 in Hn.
  apply segments_defined in Hn as [Hs He]. by destruct n.
Qed.

(** X3. For the nodes that gcodeopt builds, [create_data_model] returns a
    matrix exactly when, from the end of every node to the start of every
    other node, [**] returns both squares and the square root of their sum
    is a number.  Otherwise an exception leaves it: that of [**] when the
    [pow] of the platform reports an error, as it does when a square
    overflows; that of [math.sqrt] or of [int] when the root is an infinity
    or a NaN.  A missing position is never the cause, since every node has
    both. *)
Theorem create_data_model_defined {libm : py.Libm} (parts : list (list Line)) :
  is_Some (create_data_model libm (segments parts)) ↔
  ∀ i j from_segment to_segment e s,
    i ≠ j →
    segments parts !! i = Some from_segment →
    segments parts !! j = Some to_segment →
    node_endpos from_segment = Some e →
    node_startpos to_segment = Some s →
    ∃ sq0 sq1,
      py.pow2 libm (e.1 - s.1) = Some sq0 ∧
      py.pow2 libm (e.2 - s.2) = Some sq1 ∧
      finite (sqrt (sq0 + sq1)) = true.
Proof.
  split.
  - intros [data Hdata] i j from_segment to_segment e s Hij Hfrom Hto He Hs.
    apply create_data_model_entries in Hdata as (_ & _ & Hentries).
    destruct (Hentries _ _ _ _ Hfrom Hto) as (row & c & _ & _ & Hc).
    apply entry_off_diagonal in Hc as (e' & s' & d & He' & Hs' & Hd & Hint);
      [|done].
    rewrite He in He'. injection He' as <-.
    rewrite Hs in Hs'. injection Hs' as <-.
    apply distance_Some in Hd as (sq0 & sq1 & H0 & H1 & ->).
    exists sq0, sq1. split_and!; try done. apply int_finite. eauto.
  - intros Hall. apply create_data_model_total.
    intros i j from_segment to_segment Hfrom Hto. unfold entry.
    destruct (decide (i = j)) as [_|Hij]; [eauto|].
    destruct (segments_node_positions _ _ _ Hfrom) as [_ [e He]].
    destruct (segments_node_positions _ _ _ Hto) as [[s Hs] _].
    destruct (Hall _ _ _ _ _ _ Hij Hfrom Hto He Hs) as (sq0 & sq1 & H0 & H1 & Hfin).
    rewrite He, Hs. destruct e as [e0 e1], s as [s0 s1]. simpl in *.
    rewrite H0, H1. simpl. rewrite (math_sqrt_finite _ Hfin). simpl.
    by apply int_finite.
Qed.

End Building.

(** ** Reversal *)

Section Reversal.

Import gcodeopt spec ortools cvrp twins.

Lemma binary_round_aux_opp (m e : Z) (l : location) :
  binary_round_aux prec emax true m e l =
    SFopp (binary_round_aux prec emax false m e l).
Proof.
  unfold binary_round_aux.
  destruct (shr_fexp prec emax m e l) as [mrs' e'].
  destruct (shr_fexp prec emax _ e' loc_Exact) as [mrs'' e''].
  destruct (shr_m mrs'') as [|q|q]; try done.
  by destruct (e'' <=? emax - prec).
Qed.

Lemma binary_round_opp (m : positive) (e : Z) :
  binary_round prec emax true m e = SFopp (binary_round prec emax false m e).
Proof.
  unfold binary_round.
  destruct (shl_align m e _) as [mz ez]. apply binary_round_aux_opp.
Qed.

Lemma binary_normalize_opp (m e : Z) :
  same_abs (binary_normalize prec emax (- m) e false)
           (binary_normalize prec emax m e false).
Proof.
  destruct m as [|p|p].
  - by left.
  - right. apply binary_round_opp.
  - right.
    change (binary_round prec emax false p e =
            SFopp (binary_round prec emax true p e)).
    rewrite binary_round_opp.
    by destruct (binary_round prec emax false p e) as [[]|[]| |[] ? ?].
Qed.

(** In binary64 arithmetic [y - x] is [x - y] up to its sign. *)
Lemma SF64sub_swap (X Y : spec_float) : same_abs (SF64sub Y X) (SF64sub X Y).
Proof.
  destruct X as [sx|sx| |sx mx ex], Y as [sy|sy| |sy my ey];
    unfold SF64sub, SFsub.
  16: { rewrite (Z.min_comm ey ex).
        set (A := cond_Zopp sx _). set (B := cond_Zopp sy _).
        replace (B - A) with (- (A - B)) by lia.
        apply binary_normalize_opp. }
  all: unfold same_abs; try (destruct sx); try (destruct sy); cbn [SFopp negb];
    (left; reflexivity) || (right; reflexivity).
Qed.

Lemma abs_same_abs (v w : float) :
  same_abs (Prim2SF v) (Prim2SF w) → abs v = abs w.
Proof.
  intros H. apply Prim2SF_inj. rewrite !abs_spec.
  destruct H as [->| ->]; [done|]. by destruct (Prim2SF w).
Qed.

(** [**] reads its operand through its magnitude only: a NaN and a zero are
    their own opposites, and of any other float the absolute value is
    squared. *)
Lemma pow2_same_abs {libm : py.Libm} (v w : float) :
  same_abs (Prim2SF v) (Prim2SF w) → py.pow2 libm v = py.pow2 libm w.
Proof.
  intros H. pose proof (abs_same_abs v w H) as Habs.
  destruct H as [H|H]; [by apply Prim2SF_inj in H as ->|].
  unfold py.pow2. rewrite H, Habs.
  destruct (Prim2SF w) as [s|s| |s m e] eqn:Hw; simpl; try done.
  f_equal. apply Prim2SF_inj. by rewrite H, Hw.
Qed.

(** The square of a difference does not depend on its direction. *)
Lemma pow2_sub_swap {libm : py.Libm} (a b : float) :
  py.pow2 libm (a - b) = py.pow2 libm (b - a).
Proof. apply pow2_same_abs. rewrite !sub_spec. apply SF64sub_swap. Qed.

Lemma distance_sym {libm : py.Libm} (a b : option Pos) :
  distance libm a b = distance libm b a.
Proof.
  destruct a as [[a0 a1]|], b as [[b0 b1]|]; simpl; try done.
  by rewrite (pow2_sub_swap a0 b0), (pow2_sub_swap a1 b1).
Qed.

Lemma twin_even (k : nat) : twin (2 * k) = (2 * k + 1)%nat.
Proof. unfold twin. rewrite Nat.even_even. lia. Qed.

Lemma twin_odd (k : nat) : twin (2 * k + 1) = (2 * k)%nat.
Proof. unfold twin. rewrite Nat.even_odd. lia. Qed.

Lemma twin_involutive (i : nat) : twin (twin i) = i.
Proof.
  destruct (Nat.Even_or_Odd i) as [[k ->]|[k ->]].
  - by rewrite twin_even, twin_odd.
  - by rewrite twin_odd, twin_even.
Qed.

Lemma flip_positions (n : Node) :
  node_startpos (flip n) = node_endpos n ∧ node_endpos (flip n) = node_startpos n.
Proof. by destruct n. Qed.

(** The twin of a node index holds the other orientation of the node. *)
Lemma segments_twin_lookup (parts : list (list Line)) (i : nat) (n : Node) :
  segments parts !! i = Some n →
  segments parts !! twin i = Some (flip n).
Proof.
  intros Hn. pose proof (lookup_lt_Some _ _ _ Hn) as Hi.
  pose proof (segments_length parts) as Hlen.
  destruct (Nat.Even_or_Odd i) as [[k ->]|[k ->]].
  - destruct (segments_twins parts k ltac:(lia)) as (s & Hf & Hr).
    rewrite Hf in Hn. injection Hn as <-. by rewrite twin_even.
  - destruct (segments_twins parts k ltac:(lia)) as (s & Hf & Hr).
    rewrite Hr in Hn. injection Hn as <-. by rewrite twin_odd.
Qed.

(** X4. The distance matrix is symmetric under reversal: going from node i
    to node j costs what going from the reversed j to the reversed i costs,
    where the reversed node of an index is its twin (2k and 2k + 1). *)
Theorem matrix_reversal {libm : py.Libm}
    (parts : list (list Line)) (data : Data) (i j : nat) :
  create_data_model libm (segments parts) = Some data →
  (i < length (segments parts))%nat →
  (j < length (segments parts))%nat →
  (twin i < length (segments parts))%nat ∧
  (twin j < length (segments parts))%nat ∧
  ∃ row_i row_j c,
    distance_matrix data !! i = Some row_i ∧ row_i !! j = Some c ∧
    distance_matrix data !! twin j = Some row_j ∧ row_j !! twin i = Some c.
Proof.
  intros Hdata Hi Hj.
  destruct (lookup_lt_is_Some_2 _ _ Hi) as [from_segment Hfrom].
  destruct (lookup_lt_is_Some_2 _ _ Hj) as [to_segment Hto].
  pose proof (segments_twin_lookup _ _ _ Hfrom) as Hfrom'.
  pose proof (segments_twin_lookup _ _ _ Hto) as Hto'.
  split; [by eapply lookup_lt_Some|]. split; [by eapply lookup_lt_Some|].
  destruct (create_data_model_entries _ _ Hdata) as (_ & _ & Hentries).
  destruct (Hentries _ _ _ _ Hfrom Hto) as (row_i & c & Hri & Hc & He).
  destruct (Hentries _ _ _ _ Hto' Hfrom') as (row_j & c' & Hrj & Hc' & He').
  exists row_i, row_j, c. split_and!; try done.
  rewrite Hc'. f_equal.
  destruct (decide (i = j)) as [->|Hij].
  - unfold entry in He, He'. rewrite decide_True in He by done.
    rewrite decide_True in He' by done. congruence.
  - assert (Hij' : twin j ≠ twin i).
    { intros Heq. apply Hij. by rewrite <- (twin_involutive i), <- Heq,
        twin_involutive. }
    apply entry_off_diagonal in He as (e & s & d & Hpe & Hps & Hd & Hint);
      [|done].
    apply entry_off_diagonal in He' as (e' & s' & d' & Hpe' & Hps' & Hd' & Hint');
      [|done].
    destruct (flip_positions to_segment) as [_ Hfe].
    destruct (flip_positions from_segment) as [Hfs _].
    rewrite Hfe, Hps in Hpe'. injection Hpe' as <-.
    rewrite Hfs, Hpe in Hps'. injection Hps' as <-.
    rewrite distance_sym, Hd in Hd'. injection Hd' as <-. congruence.
Qed.

Lemma matrix_reversal_witness :
  create_data_model example.pow (segments [example.partA; example.partB]) = Some example.data ∧
  (0 < length (segments [example.partA; example.partB]))%nat ∧
  (2 < length (segments [example.partA; example.partB]))%nat ∧
  (twin 0 < length (segments [example.partA; example.partB]))%nat ∧
  (twin 2 < length (segments [example.partA; example.partB]))%nat ∧
  ∃ row_i row_j c,
    distance_matrix example.data !! 0%nat = Some row_i ∧ row_i !! 2%nat = Some c ∧
    distance_matrix example.data !! twin 2 = Some row_j ∧
    row_j !! twin 0 = Some c.
Proof.
  assert (H0 : (0 < length (segments [example.partA; example.partB]))%nat)
    by (simpl; lia).
  assert (H2 : (2 < length (segments [example.partA; example.partB]))%nat)
    by (simpl; lia).
  split; [exact example_data|]. split; [exact H0|]. split; [exact H2|].
  exact (matrix_reversal [example.partA; example.partB] example.data 0 2
           example_data H0 H2).
Defined.

End Reversal.

(** ** The disjunctions over the whole model *)

Section Partition.

Import gcodeopt spec ortools cvrp.

Lemma range_from_double (h s fuel : nat) :
  (2 * h <= fuel)%nat →
  py.range_from fuel s (s + 2 * h) 2 = (fun t => (s + 2 * t)%nat) <$> seq 0 h.
Proof.
  revert s fuel. induction h as [|h IH]; intros s fuel Hfuel.
  - destruct fuel as [|fuel]; simpl; [done|].
    destruct (Nat.ltb_spec s (s + 0)); [lia|done].
  - destruct fuel as [|fuel]; [lia|]. simpl.
    destruct (Nat.ltb_spec s (s + S (h + S (h + 0)))); [|lia].
    replace (s + S (h + S (h + 0)))%nat with (s + 2 + 2 * h)%nat by lia.
    rewrite IH by lia. rewrite Nat.add_0_r. f_equal.
    rewrite <- fmap_S_seq, <- list_fmap_compose.
    apply list_fmap_ext. intros _ t _. simpl. lia.
Qed.

Lemma concat_pairs (a h : nat) :
  concat ((fun k => [(2 * k)%nat; (2 * k + 1)%nat]) <$> seq a h) =
    seq (2 * a) (2 * h).
Proof.
  revert a. induction h as [|h IH]; intros a; [done|].
  replace (2 * S h)%nat with (S (S (2 * h))) by lia.
  cbn [seq fmap list_fmap concat app]. rewrite IH.
  replace (2 * S a)%nat with (S (S (2 * a))) by lia.
  replace (2 * a + 1)%nat with (S (2 * a)) by lia. done.
Qed.

(** X5. For the nodes that gcodeopt builds, the disjunctions [main]
    registers are, in order, the pairs [2k, 2k + 1] of the segments that are
    not degenerate, each without penalty and with cardinality 1; together
    they hold every node index exactly once, the depot included, and no
    index that is not a node. *)
Theorem disjunctions_partition {libm : py.Libm}
    (parts : list (list Line)) (data : Data) :
  create_data_model libm (segments parts) = Some data →
  disjunctions (main_routing data) =
    ((fun k => {| indices := [(2 * k)%nat; (2 * k + 1)%nat];
                  penalty := kNoPenalty; max_cardinality := 1 |})
     <$> seq 0 (length parts - degenerate_count parts)) ∧
  concat (indices <$> disjunctions (main_routing data)) =
    seq 0 (length (segments parts)).
Proof.
  intros Hdata.
  destruct (create_data_model_entries _ _ Hdata) as (Hlen & _).
  pose proof (segments_length parts) as Hseg.
  set (h := (length parts - degenerate_count parts)%nat) in *.
  destruct (main_routing_fields data) as (_ & _ & _ & _ & Hdis).
  assert (Heq : disjunctions (main_routing data) =
    ((fun k => {| indices := [(2 * k)%nat; (2 * k + 1)%nat];
                  penalty := kNoPenalty; max_cardinality := 1 |})
     <$> seq 0 h)).
  { rewrite Hdis, Hlen, Hseg. unfold py.range3.
    pose proof (range_from_double h 0 (2 * h) ltac:(lia)) as Hr.
    change (0 + 2 * h)%nat with (2 * h)%nat in Hr. rewrite Hr.
    rewrite <- list_fmap_compose. apply list_fmap_ext.
    intros i k Hk. apply lookup_seq in Hk as [-> Hk]. simpl.
    unfold IndexToNode, main_manager. cbn [num_nodes]. rewrite Hlen, Hseg.
    destruct (Nat.ltb_spec (i + (i + 0)) (2 * h)); [|lia].
    destruct (Nat.ltb_spec (i + (i + 0) + 1) (2 * h)); [|lia].
    done. }
  split; [done|].
  rewrite Heq, <- list_fmap_compose, Hseg.
  change (indices ∘ _) with (fun k => [(2 * k)%nat; (2 * k + 1)%nat]).
  apply (concat_pairs 0 h).
Qed.

Lemma disjunctions_partition_witness :
  create_data_model example.pow (segments [example.partE; example.partA; example.partB])
    = Some example.data ∧
  disjunctions (main_routing example.data) =
    ((fun k => {| indices := [(2 * k)%nat; (2 * k + 1)%nat];
                  penalty := kNoPenalty; max_cardinality := 1 |})
     <$> seq 0 (length [example.partE; example.partA; example.partB] -
                degenerate_count [example.partE; example.partA; example.partB])) ∧
  concat (indices <$> disjunctions (main_routing example.data)) =
    seq 0 (length (segments [example.partE; example.partA; example.partB])).
Proof.
  assert (H : create_data_model example.pow
                (segments [example.partE; example.partA; example.partB])
              = Some example.data) by (vm_compute; reflexivity).
  split; [exact H|].
  exact (disjunctions_partition [example.partE; example.partA; example.partB]
           example.data H).
Defined.

End Partition.

(** ** How many nodes a solution routes *)

Section Coverage.

Import gcodeopt spec ortools cvrp.

Lemma pair_exclusive_halves (h : nat) (l : list nat) :
  NoDup l → (∀ n, n ∈ l → (n < 2 * h)%nat) → pair_exclusive (2 * h) l →
  NoDup ((fun n => n / 2)%nat <$> l).
Proof.
  intros Hnd Hlt Hex.
  apply NoDup_fmap_2_strong; [|done]. intros x y Hx Hy Hxy.
  destruct (decide (x = y)) as [|Hne]; [done|]. exfalso.
  pose proof (Hlt _ Hx). pose proof (Hlt _ Hy).
  pose proof (Nat.div_mod_eq x 2). pose proof (Nat.div_mod_eq y 2).
  pose proof (Nat.mod_upper_bound x 2 ltac:(lia)).
  pose proof (Nat.mod_upper_bound y 2 ltac:(lia)).
  apply (Hex (x / 2)%nat); [lia|].
  assert (x = (2 * (x / 2))%nat ∧ y = (2 * (x / 2) + 1)%nat ∨
          y = (2 * (x / 2))%nat ∧ x = (2 * (x / 2) + 1)%nat) as [[Ha Hb]|[Ha Hb]]
    by lia.
  - split; [by rewrite <- Ha|by rewrite <- Hb].
  - split; [by rewrite <- Ha|by rewrite <- Hb].
Qed.

(** A list without repetition that holds at most one of every pair of twins
    below [2h] has at most [h] members. *)
Lemma pair_exclusive_length (h : nat) (l : list nat) :
  NoDup l → (∀ n, n ∈ l → (n < 2 * h)%nat) → pair_exclusive (2 * h) l →
  (length l <= h)%nat.
Proof.
  intros Hnd Hlt Hex.
  pose proof (pair_exclusive_halves h l Hnd Hlt Hex) as Hhalf.
  assert (Hle : (length ((fun n => n / 2)%nat <$> l) <= length (seq 0 h))%nat).
  { apply submseteq_length, NoDup_submseteq; [done|].
    intros k (n & -> & Hn)%list_elem_of_fmap. apply elem_of_seq.
    pose proof (Hlt _ Hn). pose proof (Nat.div_mod_eq n 2). lia. }
  by rewrite length_fmap, length_seq in Hle.
Qed.

(** What [main] reports for a solution, in terms of the route. *)
Lemma report_route {libm : py.Libm} (parts : list (list Line)) (data : Data)
    (solution : Assignment) (fuel : nat) (r : Report) :
  create_data_model libm (segments parts) = Some data →
  is_solution (main_routing data) solution →
  main_report data solution fuel = Some r →
  path (main_manager data) solution (Start (main_manager data) 0)
    (solution_route r) ∧
  NoDup (solution_route r) ∧
  (∀ n, n ∈ solution_route r → (n < length (segments parts))%nat) ∧
  pair_exclusive (length (segments parts)) (solution_route r) ∧
  routed r = length (solution_route r) ∧
  total r = length (segments parts) ∧
  dropped_nodes r =
    list_to_set (py.range (length (segments parts))) ∖
    list_to_set (solution_route r).
Proof.
  intros Hdata (_ & _ & Hdis & _) Hr.
  unfold main_report in Hr. rewrite (print_solution_walk _ _ Hdata) in Hr.
  destruct (walk _ _ _ _ _ _ _) as [[ixs dist]|] eqn:Hw; simpl in Hr; [|done].
  injection Hr as <-. simpl.
  apply walk_inv in Hw as (l & Hp & ->).
  destruct (main_routing_fields data) as (Hm & _). rewrite Hm in *.
  rewrite (path_nodes _ _ Hdata _ _ _ Hp). simpl.
  destruct (create_data_model_entries _ _ Hdata) as (Hlen & _).
  split_and!; try done.
  - by eapply path_NoDup.
  - intros n Hn. rewrite <- Hlen.
    apply (main_manager_IsEnd _ _ Hdata). by eapply path_not_end.
  - rewrite <- Hlen. by eapply solution_pair_exclusive.
  - by rewrite Hlen.
Qed.

(** With every active node on the route, a route holds one of every pair
    of twins. *)
Lemma route_one_of_each {libm : py.Libm}
    (parts : list (list Line)) (data : Data)
    (solution : Assignment) (fuel : nat) (r : Report) :
  create_data_model libm (segments parts) = Some data →
  is_solution (main_routing data) solution →
  main_report data solution fuel = Some r →
  (∀ i, (i < length (segments parts))%nat → active solution i = true →
        i ∈ solution_route r) →
  ∀ k : nat, (2 * k + 1 < length (segments parts))%nat →
    ((2 * k)%nat ∈ solution_route r ∧ (2 * k + 1)%nat ∉ solution_route r) ∨
    (((2 * k)%nat ∉ solution_route r) ∧ (2 * k + 1)%nat ∈ solution_route r).
Proof.
  intros Hdata Hsol Hr Hall k Hk.
  destruct (report_route _ _ _ _ _ Hdata Hsol Hr) as (_ & _ & _ & Hex & _).
  destruct Hsol as (_ & _ & Hdis & _).
  destruct (create_data_model_entries _ _ Hdata) as (Hlen & _).
  destruct (Hdis _ (main_routing_pairs data k ltac:(lia))) as [_ Hexact].
  cbn [indices max_cardinality penalty] in Hexact.
  specialize (Hexact ltac:(done)). rewrite active_count_pair in Hexact.
  destruct (active solution (2 * k)) eqn:Ha.
  - left. split; [apply Hall; [lia|done]|].
    intros Hb. apply (Hex k Hk). split; [|done]. apply Hall; [lia|done].
  - destruct (active solution (2 * k + 1)) eqn:Hb; [|simpl in Hexact; lia].
    right. split; [|apply Hall; [lia|done]].
    intros Ha'. apply (Hex k Hk). split; [done|]. apply Hall; [lia|done].
Qed.

(** X6. For the nodes that gcodeopt builds, whatever solution the solver
    returns, [main] reports at most half of the nodes as routed; node 1, the
    reversed first segment, is never among them, since the depot, node 0, is
    on every route; and the nodes reported as dropped are the others, so
    that routed and dropped nodes add up to all nodes. *)
Theorem solution_routes_at_most_half {libm : py.Libm}
    (parts : list (list Line)) (data : Data)
    (solution : Assignment) (fuel : nat) (r : Report) :
  segments parts ≠ [] →
  create_data_model libm (segments parts) = Some data →
  is_solution (main_routing data) solution →
  main_report data solution fuel = Some r →
  (2 * routed r <= total r)%nat ∧
  0%nat ∈ solution_route r ∧
  (1%nat ∉ solution_route r) ∧
  (size (dropped_nodes r) + routed r = total r)%nat.
Proof.
  intros Hne Hdata Hsol Hr.
  destruct (report_route _ _ _ _ _ Hdata Hsol Hr)
    as (Hp & Hnd & Hlt & Hex & -> & -> & ->).
  pose proof (segments_length parts) as Hseg.
  set (h := (length parts - degenerate_count parts)%nat) in *.
  rewrite Hseg in *.
  pose proof (pair_exclusive_length h _ Hnd Hlt Hex) as Hhalf.
  assert (Hpos : (0 < h)%nat).
  { destruct (segments parts); [done|]. simpl in Hseg. lia. }
  assert (H0 : 0%nat ∈ solution_route r).
  { destruct (create_data_model_fields _ _ Hdata) as (_ & Hdepot & _).
    destruct (create_data_model_entries _ _ Hdata) as (Hlen & _).
    assert (Hstart : Start (main_manager data) 0 = 0%nat) by exact Hdepot.
    rewrite Hstart in Hp.
    inversion Hp as [? Hend|? l' Hend _]; subst; [|left].
    apply Nat.leb_le in Hend. rewrite (main_manager_Size _ _ Hdata) in Hend.
    lia. }
  split_and!; try done.
  - lia.
  - intros H1. apply (Hex 0%nat); [lia|]. done.
  - rewrite size_difference.
    + rewrite !size_list_to_set by (done || apply NoDup_seq).
      unfold py.range. rewrite length_seq. lia.
    + intros n Hn%elem_of_list_to_set. apply elem_of_list_to_set.
      unfold py.range. apply elem_of_seq. pose proof (Hlt n Hn). lia.
Qed.

Lemma solution_routes_at_most_half_witness :
  segments [example.partA; example.partB] ≠ [] ∧
  create_data_model example.pow (segments [example.partA; example.partB]) = Some example.data ∧
  is_solution (main_routing example.data) example.sol ∧
  main_report example.data example.sol 3 = Some example.report ∧
  (2 * routed example.report <= total example.report)%nat ∧
  0%nat ∈ solution_route example.report ∧
  (1%nat ∉ solution_route example.report) ∧
  (size (dropped_nodes example.report) + routed example.report =
     total example.report)%nat.
Proof.
  split; [exact example_segments_not_nil|]. split; [exact example_data|].
  split; [exact example_solution|]. split; [exact example_report|].
  exact (solution_routes_at_most_half [example.partA; example.partB] example.data
           example.sol 3 example.report example_segments_not_nil example_data
           example_solution example_report).
Defined.

(** X7. Suppose, as the routing library has it, that every active node is
    on the route of the vehicle.  Then, for the nodes that gcodeopt builds, a
    solution routes exactly one orientation of every segment that is not
    degenerate: one of 2k and 2k + 1 is on the route and the other is not,
    and [main] reports exactly half of the nodes as routed. *)
Theorem solution_routes_every_segment {libm : py.Libm}
    (parts : list (list Line)) (data : Data)
    (solution : Assignment) (fuel : nat) (r : Report) :
  create_data_model libm (segments parts) = Some data →
  is_solution (main_routing data) solution →
  main_report data solution fuel = Some r →
  (∀ i, (i < length (segments parts))%nat → active solution i = true →
        i ∈ solution_route r) →
  (∀ k : nat, (2 * k + 1 < length (segments parts))%nat →
     ((2 * k)%nat ∈ solution_route r ∧ (2 * k + 1)%nat ∉ solution_route r) ∨
     (((2 * k)%nat ∉ solution_route r) ∧ (2 * k + 1)%nat ∈ solution_route r)) ∧
  (2 * routed r = total r)%nat.
Proof.
  intros Hdata Hsol Hr Hall.
  pose proof (route_one_of_each _ _ _ _ _ Hdata Hsol Hr Hall) as Hone.
  split; [done|].
  destruct (report_route _ _ _ _ _ Hdata Hsol Hr)
    as (_ & Hnd & Hlt & Hex & -> & -> & _).
  pose proof (segments_length parts) as Hseg.
  set (h := (length parts - degenerate_count parts)%nat) in *.
  rewrite Hseg in *.
  pose proof (pair_exclusive_length h _ Hnd Hlt Hex) as Hle.
  assert (Hge : (length (seq 0 h) <=
                 length ((fun n => n / 2)%nat <$> solution_route r))%nat).
  { apply submseteq_length, NoDup_submseteq; [apply NoDup_seq|].
    intros k Hk%elem_of_seq. apply list_elem_of_fmap.
    destruct (Hone k ltac:(lia)) as [[Hin _]|[_ Hin]].
    - exists (2 * k)%nat. split; [|done].
      by rewrite Nat.mul_comm, Nat.div_mul.
    - exists (2 * k + 1)%nat. split; [|done].
      rewrite Nat.mul_comm, Nat.div_add_l by done. simpl. lia. }
  rewrite length_fmap, length_seq in Hge. lia.
Qed.

Lemma example_no_subtour (i : nat) :
  (i < length (segments [example.partA; example.partB]))%nat →
  active example.sol i = true → i ∈ solution_route example.report.
Proof.
  intros Hi Ha. simpl in Hi.
  destruct i as [|[|[|[|i]]]]; try (simpl in Ha; discriminate); try lia.
  - left.
  - right. left.
Qed.

Lemma solution_routes_every_segment_witness :
  create_data_model example.pow (segments [example.partA; example.partB]) = Some example.data ∧
  is_solution (main_routing example.data) example.sol ∧
  main_report example.data example.sol 3 = Some example.report ∧
  (∀ i, (i < length (segments [example.partA; example.partB]))%nat →
        active example.sol i = true → i ∈ solution_route example.report) ∧
  (∀ k : nat, (2 * k + 1 < length (segments [example.partA; example.partB]))%nat →
     ((2 * k)%nat ∈ solution_route example.report ∧
      (2 * k + 1)%nat ∉ solution_route example.report) ∨
     (((2 * k)%nat ∉ solution_route example.report) ∧
      (2 * k + 1)%nat ∈ solution_route example.report)) ∧
  (2 * routed example.report = total example.report)%nat.
Proof.
  split; [exact example_data|]. split; [exact example_solution|].
  split; [exact example_report|]. split; [exact example_no_subtour|].
  exact (solution_routes_every_segment [example.partA; example.partB]
           example.data example.sol 3 example.report example_data
           example_solution example_report example_no_subtour).
Defined.

End Coverage.

(** ** Splitting the program into parts *)

Section Splitting.

Import gcodeopt more_itertools loader.

Context {A : Type} (pred : A -> A -> bool).

Lemma unsplit_snoc (l : list A) (x : A) :
  unsplit pred l →
  (∀ a, last l = Some a → pred a x = false) →
  unsplit pred (l ++ [x]).
Proof.
  induction l as [|a [|b l] IH]; intros Hl Hlast; simpl.
  - done.
  - split; [|done]. by apply Hlast.
  - destruct Hl as [Hab Hl]. split; [done|]. apply IH; [done|].
    intros c Hc. apply Hlast. exact Hc.
Qed.

Lemma split_when_loop_spec (it : list A) (cur_item : A) (buf : list A) :
  last buf = Some cur_item →
  unsplit pred buf →
  let ps := split_when_loop pred cur_item buf it in
  concat ps = buf ++ it ∧
  Forall (fun p => p ≠ []) ps ∧
  Forall (unsplit pred) ps ∧
  split_between pred ps ∧
  ∃ p rest, ps = p :: rest ∧ head p = head buf.
Proof.
  revert cur_item buf. induction it as [|next_item it IH];
    intros cur_item buf Hlast Hbuf; simpl.
  - rewrite !app_nil_r. split_and!; try done.
    + constructor; [|done]. intros ->. done.
    + by constructor.
    + by exists buf, [].
  - destruct (pred cur_item next_item) eqn:Hpred.
    + destruct (IH next_item [next_item] eq_refl I)
        as (Hcat & Hne & Hun & Hbetween & p & rest & Hps & Hhead).
      simpl in *. rewrite Hcat. split_and!; try done.
      * constructor; [|done]. intros ->. done.
      * by constructor.
      * rewrite Hps in *. split; [|done].
        exists cur_item, next_item. split_and!; done.
      * by exists buf, (split_when_loop pred next_item [next_item] it).
    + assert (Hlast' : last (buf ++ [next_item]) = Some next_item)
        by apply last_snoc.
      assert (Hbuf' : unsplit pred (buf ++ [next_item])).
      { apply unsplit_snoc; [done|]. intros a Ha.
        rewrite Hlast in Ha. by injection Ha as <-. }
      destruct (IH next_item (buf ++ [next_item]) Hlast' Hbuf')
        as (Hcat & Hne & Hun & Hbetween & p & rest & Hps & Hhead).
      rewrite Hcat, <- app_assoc. split_and!; try done.
      exists p, rest. split; [done|]. rewrite Hhead.
      destruct buf; [done|done].
Qed.

(** [split_when] loses nothing and invents nothing: the parts, one after the
    other, are the iterable; no part is empty; inside a part the predicate
    never holds between two neighbours, and it holds between the last item of
    every part and the first item of the next.  There is no part exactly
    when the iterable is empty. *)
Lemma split_when_parts (l : list A) :
  concat (split_when pred l) = l ∧
  Forall (fun p => p ≠ []) (split_when pred l) ∧
  Forall (unsplit pred) (split_when pred l) ∧
  split_between pred (split_when pred l) ∧
  (split_when pred l = [] ↔ l = []).
Proof.
  destruct l as [|cur_item it]; [done|]. unfold split_when.
  destruct (split_when_loop_spec it cur_item [cur_item] eq_refl I)
    as (Hcat & Hne & Hun & Hbetween & p & rest & Hps & _).
  split_and!; try done.
  rewrite Hps. done.
Qed.

Lemma split_between_heads (p : list A) (rest : list (list A)) :
  split_between pred (p :: rest) →
  Forall (fun q => ∃ a b, head q = Some b ∧ pred a b = true) rest.
Proof.
  revert p. induction rest as [|q rest IH]; intros p Hsplit; [done|].
  destruct Hsplit as [(a & b & _ & Hb & Hab) Hrest].
  constructor; [by exists a, b|]. by eapply IH.
Qed.

End Splitting.

Section Loading.

Import gcodeopt more_itertools loader.

Lemma unsplit_not_g0 (a : Line) (l : list Line) :
  unsplit boundary (a :: l) → is_g0 a = false →
  Forall (fun line => is_g0 line = false) (a :: l).
Proof.
  revert a. induction l as [|b l IH]; intros a Hun Ha.
  - by constructor.
  - destruct Hun as [Hab Hun]. constructor; [done|]. apply IH; [done|].
    unfold boundary, not_g0, is_g0 in *.
    destruct (bool_decide (command a = "G00"%string)); [done|].
    simpl in Hab. done.
Qed.

(** A list that is not split is a run of G00 moves followed by moves that
    are not G00. *)
Lemma unsplit_runs (l : list Line) :
  unsplit boundary l →
  ∃ g others, l = g ++ others ∧
    Forall (fun line => is_g0 line = true) g ∧
    Forall (fun line => is_g0 line = false) others.
Proof.
  induction l as [|a l IH]; intros Hun.
  - by exists [], [].
  - destruct (is_g0 a) eqn:Ha.
    + destruct IH as (g & others & -> & Hg & Ho).
      { destruct l; [done|]. by destruct Hun. }
      exists (a :: g), others. split_and!; try done. by constructor.
    + exists [], (a :: l). split_and!; try done. by apply unsplit_not_g0.
Qed.

(** X8. Loading the program fails, with [StopIteration], exactly when the
    program has no line.  Otherwise the lines of the program are the
    preamble followed by the parts the segments are built from, nothing lost
    and nothing added; the preamble is not empty; every part starts with a
    G00 move, and every part, like the preamble, is a run of G00 moves
    followed by a run of moves that are not G00. *)
Theorem load_parts (pattern_lines : list Line) :
  (load pattern_lines = None ↔ pattern_lines = []) ∧
  ∀ L, load pattern_lines = Some L →
    ∃ parts,
      loaded_segments L = segments parts ∧
      pattern_lines = preamble L ++ concat parts ∧
      preamble L ≠ [] ∧
      Forall (fun p => ∃ first, head p = Some first ∧ is_g0 first = true) parts ∧
      Forall (fun p => ∃ g others, p = g ++ others ∧
                Forall (fun line => is_g0 line = true) g ∧
                Forall (fun line => is_g0 line = false) others)
        (preamble L :: parts).
Proof.
  destruct (split_when_parts boundary pattern_lines)
    as (Hcat & Hne & Hun & Hbetween & Hnil).
  unfold load. destruct (split_when boundary pattern_lines) as [|first parts].
  - split; [by rewrite <- Hnil|]. done.
  - split.
    + split; [done|]. intros Hl. apply Hnil in Hl. discriminate.
    + intros L [= <-]. exists parts. simpl. split_and!; try done.
      * by apply Forall_cons in Hne as [? _].
      * apply split_between_heads in Hbetween.
        eapply Forall_impl; [exact Hbetween|]. simpl.
        intros q (a & b & Hb & Hab). exists b. split; [done|].
        unfold boundary in Hab. by apply andb_true_iff in Hab as [_ ?].
      * eapply Forall_impl; [exact Hun|]. apply unsplit_runs.
Qed.

End Loading.

(** ** The file that is written *)

Section Output.

Import gcodeopt spec ortools cvrp loader output.

Lemma node_lines_Permutation (node : Node) :
  node_lines node ≡ₚ lines (underlying node).
Proof. destruct node; simpl; [done|]. apply reverse_Permutation. Qed.

Lemma div2_SS (n : nat) : (S (S n) / 2 = S (n / 2))%nat.
Proof.
  replace (S (S n)) with (1 * 2 + n)%nat by lia.
  by rewrite Nat.div_add_l.
Qed.

(** The parts that are not degenerate, in order: node [n] is an orientation
    of the part number [n / 2] among them. *)
Lemma segments_part_lookup (parts : list (list Line)) (n : nat) (node : Node) :
  segments parts !! n = Some node →
  filter (fun p => degenerate p = false) parts !! (n / 2)%nat =
    Some (lines (underlying node)).
Proof.
  rewrite segments_flat_map. revert n.
  induction parts as [|part parts IH]; intros n Hn; [done|].
  cbn [flat_map] in Hn. rewrite filter_cons. unfold nodes_of in Hn.
  destruct (degenerate part) eqn:Hdeg.
  - rewrite decide_False by done. by apply IH.
  - rewrite decide_True by done.
    destruct n as [|[|n]]; simpl in Hn.
    + by injection Hn as <-.
    + by injection Hn as <-.
    + rewrite div2_SS. simpl. by apply IH.
Qed.

(** What is written is the rendering of the items. *)
Lemma write_segments_render (str : Line -> string) (segs : list Node)
    (solution : list nat) :
  write_segments str segs solution =
    (fun w : list Written => render str <$> w) <$> segment_items segs solution.
Proof.
  induction solution as [|n solution IH]; [done|]. simpl.
  destruct (segs !! n) as [node|]; [|done]. simpl. rewrite IH.
  destruct (segment_items segs solution) as [rest|]; [|done]. simpl.
  by rewrite fmap_app, <- list_fmap_compose.
Qed.

Lemma optimized_render (str : Line -> string) (preamble : list Line)
    (segs : list Node) (solution : list nat) :
  optimized str preamble segs solution =
    (fun w : list Written => render str <$> w) <$> items preamble segs solution.
Proof.
  unfold optimized, items. rewrite write_segments_render.
  destruct (segment_items segs solution) as [body|]; [|done]. simpl.
  by rewrite fmap_app, <- list_fmap_compose.
Qed.

(** Once the arcs are rewritten, the text of every arc starts with G01. *)
Lemma rewrite_arcs_text (pattern_lines : list Line) :
  Forall (fun line => is_arc line = true → starts_G01 (raw line))
    (rewrite_arcs pattern_lines).
Proof.
  apply Forall_fmap, Forall_forall. intros line _. simpl.
  unfold rewrite_arc, is_arc.
  destruct (bool_decide (command line = "G02"%string) ||
            bool_decide (command line = "G03"%string)) eqn:Harc; simpl.
  - intros _. by eexists.
  - by rewrite Harc.
Qed.

Lemma written_lines_app (w1 w2 : list Written) :
  written_lines (w1 ++ w2) = written_lines w1 ++ written_lines w2.
Proof. unfold written_lines. by rewrite flat_map_app. Qed.

Lemma written_lines_WLine (ls : list Line) : written_lines (WLine <$> ls) = ls.
Proof.
  induction ls as [|l ls IH]; [done|].
  rewrite fmap_cons. change (l :: written_lines (WLine <$> ls) = l :: ls).
  by rewrite IH.
Qed.

Lemma comments_WLine (ls : list Line) :
  filter (fun item => is_comment item = true) (WLine <$> ls) = [].
Proof.
  induction ls as [|l ls IH]; [done|].
  rewrite fmap_cons, filter_cons, decide_False; done.
Qed.

(** The loop writes, for every node of the route in turn, the lines of the
    node; it fails only on a node that is no index of [segments]. *)
Lemma write_segments_lines (segs : list Node) (solution : list nat) :
  (∀ n, n ∈ solution → (n < length segs)%nat) →
  ∃ body nodes,
    segment_items segs solution = Some body ∧
    Forall2 (fun n node => segs !! n = Some node) solution nodes ∧
    written_lines body = concat (node_lines <$> nodes) ∧
    length (filter (fun item => is_comment item = true) body) = length solution.
Proof.
  induction solution as [|n solution IH]; intros Hlt.
  - exists [], []. split_and!; done.
  - destruct IH as (body & nodes & Hbody & Hnodes & Hlines & Hcount).
    { intros n' Hn'. apply Hlt. by right. }
    destruct (lookup_lt_is_Some_2 segs n) as [node Hnode].
    { apply Hlt. left. }
    exists (WSegment n :: (WLine <$> node_lines node) ++ body), (node :: nodes).
    split_and!.
    + simpl. rewrite Hnode. simpl. by rewrite Hbody.
    + by constructor.
    + change (written_lines ((WLine <$> node_lines node) ++ body) =
              node_lines node ++ concat (node_lines <$> nodes)).
      rewrite written_lines_app, written_lines_WLine. by rewrite Hlines.
    + rewrite filter_cons, decide_True by done. simpl. f_equal.
      by rewrite filter_app, length_app, Hcount, comments_WLine.
Qed.

Lemma concat_node_lines_Permutation (nodes : list Node) :
  concat (node_lines <$> nodes) ≡ₚ concat ((fun n => lines (underlying n)) <$> nodes).
Proof.
  induction nodes as [|node nodes IH]; [done|].
  simpl. by rewrite node_lines_Permutation, IH.
Qed.

Lemma concat_submseteq {A : Type} (l1 l2 : list (list A)) :
  l1 ⊆+ l2 → concat l1 ⊆+ concat l2.
Proof.
  induction 1 as [|x l1 l2 _ IH|x y l|x l1 l2 _ IH|l1 l2 l3 _ IH1 _ IH2]; simpl.
  - done.
  - by apply submseteq_skips_l.
  - apply Permutation_submseteq. rewrite !app_assoc.
    by rewrite (Permutation_app_comm y x).
  - by apply submseteq_inserts_l.
  - by etrans.
Qed.

Lemma lookup_total_seq {A : Type} `{!Inhabited A} (l : list A) :
  (fun i => l !!! i) <$> seq 0 (length l) = l.
Proof.
  apply list_eq. intros i. rewrite list_lookup_fmap.
  destruct (decide (i < length l)%nat) as [Hi|Hi].
  - rewrite lookup_seq_lt by done. simpl.
    destruct (lookup_lt_is_Some_2 l i Hi) as [x Hx].
    by rewrite Hx, (list_lookup_total_correct _ _ _ Hx).
  - rewrite lookup_seq_ge, lookup_ge_None_2 by lia. done.
Qed.

(** The parts the nodes of a route are orientations of, as the parts
    numbered by the halves of the node indices. *)
Lemma route_parts (parts : list (list Line)) (l : list nat) (nodes : list Node) :
  Forall2 (fun n node => segments parts !! n = Some node) l nodes →
  (fun n => lines (underlying n)) <$> nodes =
    (fun k => filter (fun p => degenerate p = false) parts !!! k)
      <$> ((fun n => n / 2)%nat <$> l).
Proof.
  induction 1 as [|n node l nodes Hn _ IH]; [done|].
  rewrite !fmap_cons, IH. f_equal.
  apply segments_part_lookup in Hn.
  by rewrite (list_lookup_total_correct _ _ _ Hn).
Qed.

End Output.

Section WrittenFile.

Import gcodeopt spec ortools cvrp more_itertools loader output.

(** What a successful load holds: the preamble, and the segments of the
    parts that follow it. *)
Lemma load_Some (pattern_lines : list Line) (L : Loaded) :
  load pattern_lines = Some L →
  ∃ parts, loaded_segments L = segments parts ∧
           pattern_lines = preamble L ++ concat parts.
Proof.
  destruct (split_when_parts boundary pattern_lines) as (Hcat & _).
  unfold load. destruct (split_when boundary pattern_lines) as [|first parts];
    [done|].
  intros [= <-]. by exists parts.
Qed.

Lemma segments_length_filter (parts : list (list Line)) :
  length (segments parts) =
    (2 * length (filter (fun p => degenerate p = false) parts))%nat.
Proof.
  rewrite segments_flat_map.
  induction parts as [|part parts IH]; [done|].
  cbn [flat_map]. rewrite length_app, IH, filter_cons. unfold nodes_of.
  destruct (degenerate part).
  - rewrite decide_False by done. simpl. lia.
  - rewrite decide_True by done. simpl. lia.
Qed.

(** The lines written for a route, up to their order inside a segment, are
    the parts numbered by the halves of the nodes of the route. *)
Lemma route_lines (parts : list (list Line)) (l : list nat) :
  (∀ n, n ∈ l → (n < length (segments parts))%nat) →
  ∃ body,
    segment_items (segments parts) l = Some body ∧
    length (filter (fun item => is_comment item = true) body) = length l ∧
    written_lines body ≡ₚ
      concat ((fun k => filter (fun p => degenerate p = false) parts !!! k)
              <$> ((fun n => n / 2)%nat <$> l)).
Proof.
  intros Hlt.
  destruct (write_segments_lines (segments parts) l Hlt)
    as (body & nodes & Hbody & Hnodes & Hlines & Hcount).
  exists body. split_and!; try done.
  rewrite Hlines, concat_node_lines_Permutation.
  by rewrite (route_parts parts l nodes Hnodes).
Qed.

(** X9. For a program that loads and a solution of its model, writing the
    file does not fail.  Every string written is the text of a line of
    G-code or the comment of a segment.  The file starts with the preamble;
    it holds one comment per routed node; its lines of G-code are lines of
    the program as the module holds them, that is with the text of every
    arc rewritten to start with G01, and none is written more often than
    the program has it. *)
Theorem output_within_program {libm : py.Libm} (str : Line -> string)
    (pattern_lines : list Line) (L : Loaded)
    (data : Data) (solution : Assignment) (fuel : nat) (r : Report) :
  load_module pattern_lines = Some L →
  create_data_model libm (loaded_segments L) = Some data →
  is_solution (main_routing data) solution →
  main_report data solution fuel = Some r →
  ∃ w, optimized str (preamble L) (loaded_segments L) (solution_route r)
         = Some (render str <$> w) ∧
       preamble L `prefix_of` written_lines w ∧
       written_lines w ⊆+ rewrite_arcs pattern_lines ∧
       Forall (fun line => is_arc line = true → starts_G01 (raw line))
         (written_lines w) ∧
       length (filter (fun item => is_comment item = true) w) = routed r.
Proof.
  unfold load_module.
  intros (parts & Hsegs & Hlines)%load_Some Hdata Hsol Hr.
  rewrite Hsegs in *.
  destruct (report_route _ _ _ _ _ Hdata Hsol Hr)
    as (_ & Hnd & Hlt & Hex & Hrouted & _).
  destruct (route_lines parts _ Hlt) as (body & Hbody & Hcount & Hperm).
  pose proof (segments_length_filter parts) as Hlen.
  set (nd := filter (fun p => degenerate p = false) parts) in *.
  assert (Hwithin : written_lines ((WLine <$> preamble L) ++ body)
                    ⊆+ rewrite_arcs pattern_lines).
  { rewrite written_lines_app, written_lines_WLine, Hlines.
    apply submseteq_skips_l. rewrite Hperm.
    trans (concat nd).
    + apply concat_submseteq.
      assert (Hsub : (fun k => nd !!! k) <$> ((fun n => n / 2)%nat <$> solution_route r)
                     ⊆+ (fun k => nd !!! k) <$> seq 0 (length nd)).
      { apply fmap_submseteq, NoDup_submseteq.
        - apply (pair_exclusive_halves (length nd)); rewrite <- ?Hlen; done.
        - intros k (n & -> & Hn)%list_elem_of_fmap. apply elem_of_seq.
          pose proof (Hlt _ Hn). pose proof (Nat.div_mod_eq n 2). lia. }
      by rewrite lookup_total_seq in Hsub.
    + apply concat_submseteq, sublist_submseteq, sublist_filter. }
  exists ((WLine <$> preamble L) ++ body). split_and!.
  - rewrite optimized_render. unfold items. by rewrite Hbody.
  - rewrite written_lines_app, written_lines_WLine. by eexists.
  - done.
  - apply Forall_forall. intros line Hline.
    pose proof (rewrite_arcs_text pattern_lines) as Htext.
    rewrite Forall_forall in Htext. apply Htext.
    by eapply elem_of_submseteq.
  - by rewrite filter_app, length_app, Hcount, Hrouted, comments_WLine.
Qed.

Lemma example_load :
  load_module example.program_arc = Some example_file.loaded.
Proof. reflexivity. Qed.

Lemma example_loaded_data :
  create_data_model example.pow (loaded_segments example_file.loaded)
  = Some example.data.
Proof. vm_compute. reflexivity. Qed.

Lemma output_within_program_witness :
  load_module example.program_arc = Some example_file.loaded ∧
  create_data_model example.pow (loaded_segments example_file.loaded)
    = Some example.data ∧
  is_solution (main_routing example.data) example.sol ∧
  main_report example.data example.sol 3 = Some example.report ∧
  ∃ w, optimized raw (preamble example_file.loaded)
         (loaded_segments example_file.loaded)
         (solution_route example.report) = Some (render raw <$> w) ∧
       preamble example_file.loaded `prefix_of` written_lines w ∧
       written_lines w ⊆+ rewrite_arcs example.program_arc ∧
       Forall (fun line => is_arc line = true → starts_G01 (raw line))
         (written_lines w) ∧
       length (filter (fun item => is_comment item = true) w) =
         routed example.report.
Proof.
  split; [exact example_load|]. split; [exact example_loaded_data|].
  split; [exact example_solution|]. split; [exact example_report|].
  exact (output_within_program raw example.program_arc example_file.loaded
           example.data example.sol 3 example.report example_load
           example_loaded_data example_solution example_report).
Defined.

Lemma concat_Permutation {A : Type} (l1 l2 : list (list A)) :
  l1 ≡ₚ l2 → concat l1 ≡ₚ concat l2.
Proof.
  induction 1 as [|x l1 l2 _ IH|x y l|l1 l2 l3 _ IH1 _ IH2]; simpl.
  - done.
  - by rewrite IH.
  - rewrite !app_assoc. by rewrite (Permutation_app_comm y x).
  - by etrans.
Qed.

(** X10. Suppose in addition, as the routing library has it, that every
    active node is on the route.  Then the strings written are the texts of
    items whose lines of G-code are, up to their order, the preamble and the
    parts that are not degenerate of the program as the module holds it,
    arcs rewritten, every line once: each such part is written whole,
    forward or reversed, and the lines of the degenerate parts are left
    out. *)
Theorem output_complete {libm : py.Libm} (str : Line -> string)
    (pattern_lines : list Line) (L : Loaded)
    (data : Data) (solution : Assignment) (fuel : nat) (r : Report) :
  load_module pattern_lines = Some L →
  create_data_model libm (loaded_segments L) = Some data →
  is_solution (main_routing data) solution →
  main_report data solution fuel = Some r →
  (∀ i, (i < length (loaded_segments L))%nat → active solution i = true →
        i ∈ solution_route r) →
  ∃ w parts,
    optimized str (preamble L) (loaded_segments L) (solution_route r)
      = Some (render str <$> w) ∧
    loaded_segments L = segments parts ∧
    rewrite_arcs pattern_lines = preamble L ++ concat parts ∧
    written_lines w ≡ₚ
      preamble L ++ concat (filter (fun p => degenerate p = false) parts).
Proof.
  unfold load_module.
  intros (parts & Hsegs & Hlines)%load_Some Hdata Hsol Hr Hall.
  rewrite Hsegs in *.
  destruct (report_route _ _ _ _ _ Hdata Hsol Hr)
    as (_ & Hnd & Hlt & Hex & Hrouted & _).
  pose proof (route_one_of_each _ _ _ _ _ Hdata Hsol Hr Hall) as Hone.
  destruct (route_lines parts _ Hlt) as (body & Hbody & Hcount & Hperm).
  pose proof (segments_length_filter parts) as Hlen.
  set (nd := filter (fun p => degenerate p = false) parts) in *.
  exists ((WLine <$> preamble L) ++ body), parts. split_and!; try done.
  - rewrite optimized_render. unfold items. by rewrite Hbody.
  - rewrite written_lines_app, written_lines_WLine, Hperm.
    apply Permutation_app_head, concat_Permutation.
    assert (Hhalves : (fun n => n / 2)%nat <$> solution_route r ≡ₚ
                      seq 0 (length nd)).
    { apply NoDup_Permutation.
      - apply (pair_exclusive_halves (length nd)); rewrite <- ?Hlen; done.
      - apply NoDup_seq.
      - intros k. rewrite elem_of_seq, list_elem_of_fmap. split.
        + intros (n & -> & Hn). pose proof (Hlt _ Hn).
          pose proof (Nat.div_mod_eq n 2). lia.
        + intros [_ Hk]. destruct (Hone k ltac:(lia)) as [[Hin _]|[_ Hin]].
          * exists (2 * k)%nat. split; [|done].
            by rewrite Nat.mul_comm, Nat.div_mul.
          * exists (2 * k + 1)%nat. split; [|done].
            rewrite Nat.mul_comm, Nat.div_add_l by done. simpl. lia. }
    rewrite Hhalves. by rewrite lookup_total_seq.
Qed.

Lemma example_loaded_no_subtour (i : nat) :
  (i < length (loaded_segments example_file.loaded))%nat →
  active example.sol i = true → i ∈ solution_route example.report.
Proof. exact (example_no_subtour i). Qed.

Lemma output_complete_witness :
  load_module example.program_arc = Some example_file.loaded ∧
  create_data_model example.pow (loaded_segments example_file.loaded)
    = Some example.data ∧
  is_solution (main_routing example.data) example.sol ∧
  main_report example.data example.sol 3 = Some example.report ∧
  (∀ i, (i < length (loaded_segments example_file.loaded))%nat →
        active example.sol i = true → i ∈ solution_route example.report) ∧
  ∃ w parts,
    optimized raw (preamble example_file.loaded)
      (loaded_segments example_file.loaded)
      (solution_route example.report) = Some (render raw <$> w) ∧
    loaded_segments example_file.loaded = segments parts ∧
    rewrite_arcs example.program_arc = preamble example_file.loaded ++ concat parts ∧
    written_lines w ≡ₚ
      preamble example_file.loaded ++
      concat (filter (fun p => degenerate p = false) parts).
Proof.
  split; [exact example_load|]. split; [exact example_loaded_data|].
  split; [exact example_solution|]. split; [exact example_report|].
  split; [exact example_loaded_no_subtour|].
  exact (output_complete raw example.program_arc example_file.loaded
           example.data example.sol 3 example.report example_load
           example_loaded_data example_solution example_report
           example_loaded_no_subtour).
Defined.

End WrittenFile.

(** ** End points where every primitive has both words or neither *)

Section Classes.

Import gcodeopt spec.

(** X12. Where every primitive of a segment has both an x and a y word or
    neither, the start position is the coordinate pair of the first
    primitive that has one, and the end position that of the last. *)
Theorem endpoints_first_pair (ls : list Line) :
  (∀ line, line ∈ ls → is_Some (x line) ↔ is_Some (y line)) →
  _startpos ls = first_defined_pair ls ∧
  _endpos ls = first_defined_pair (reverse ls).
Proof.
  intros Hall. split; [by apply startpos_first_pair|].
  unfold _endpos. apply (startpos_first_pair (reverse ls)).
  intros line Hline. apply Hall. by apply elem_of_reverse.
Qed.

Lemma example_partA_full (line : Line) :
  line ∈ example.partA → is_Some (x line) ↔ is_Some (y line).
Proof.
  intros Hl. apply elem_of_cons in Hl as [->|Hl]; [simpl; split; eauto|].
  apply elem_of_cons in Hl as [->|Hl]; [simpl; split; eauto|].
  by apply elem_of_nil in Hl.
Qed.

Lemma endpoints_first_pair_witness :
  (∀ line, line ∈ example.partA → is_Some (x line) ↔ is_Some (y line)) ∧
  _startpos example.partA = first_defined_pair example.partA ∧
  _endpos example.partA = first_defined_pair (reverse example.partA).
Proof.
  split; [exact example_partA_full|].
  exact (endpoints_first_pair example.partA example_partA_full).
Defined.

End Classes.
